(** * The 720p video generator page: a shallow embedding of [Page] and its
      record handler.

    The page is one React component.  Its state ([useState] cells and
    [useRef] cells) is modelled as a record that is threaded through the
    handlers; calls into the browser (canvas capture, [MediaRecorder],
    [Blob], [URL.createObjectURL], timers) are modelled by their effect on
    that record, by a log of the calls that were made, and by the exception
    they may raise. *)

From Stdlib Require Import ZArith NArith QArith Qround Qpower Qminmax Lqa.
From Stdlib Require Import DecimalString.
From Stdlib Require Import Bool List String Ascii Lia.
From Stdlib.Strings Require Import Byte.
Import ListNotations.

Local Open Scope string_scope.

(** ** JavaScript numbers

    A [number] is NaN, an infinity, or a finite value.  Finite doubles are
    represented by the rational they denote; the result of an operation is
    rounded to the nearest double, the way binary64 arithmetic does. *)

Inductive number : Type :=
| NaN
| NegInf
| PosInf
| Fin (q : Q).

Definition num (z : Z) : number := Fin (inject_Z z).

(** [2^e] *)
Definition pow2 (e : Z) : Q := (2 ^ e)%Q.

(** The integer nearest to [x], the even one of two. *)
Definition nearest_even (x : Q) : Z :=
  let f := Qfloor x in
  match (x - inject_Z f ?= 1 # 2)%Q with
  | Lt => f
  | Gt => (f + 1)%Z
  | Eq => if Z.even f then f else (f + 1)%Z
  end.

(** [floor (log2 a)] for [a > 0]. *)
Definition Qlog2 (a : Q) : Z :=
  let k := (Z.log2 (Qnum a) - Z.log2 (Zpos (Qden a)))%Z in
  if Qle_bool (pow2 k) a then k else (k - 1)%Z.

(** For [a > 0], the multiple of the unit in the last place of [a] that is
    nearest to [a]: 53 bits, exponents from -1074 on. *)
Definition round_magnitude (a : Q) : Q :=
  let e := Z.max (Qlog2 a - 52) (-1074) in
  (inject_Z (nearest_even (a * pow2 (- e))) * pow2 e)%Q.

(** The binary64 number nearest to [q], ties to even; an infinity from
    [2^1024] on. *)
Definition round64 (q : Q) : number :=
  match Qnum q with
  | Z0 => Fin 0
  | Zpos _ =>
      let v := round_magnitude q in
      if Qle_bool (pow2 1024) v then PosInf else Fin v
  | Zneg _ =>
      let v := round_magnitude (- q) in
      if Qle_bool (pow2 1024) v then NegInf else Fin (- v)
  end.

(** [a * b]: the exact product, rounded to a double. *)
Definition num_mul (a b : number) : number :=
  match a, b with
  | NaN, _ | _, NaN => NaN
  | Fin x, Fin y => round64 (x * y)
  | Fin x, PosInf | PosInf, Fin x =>
      match (x ?= 0)%Q with Gt => PosInf | Lt => NegInf | Eq => NaN end
  | Fin x, NegInf | NegInf, Fin x =>
      match (x ?= 0)%Q with Gt => NegInf | Lt => PosInf | Eq => NaN end
  | PosInf, PosInf | NegInf, NegInf => PosInf
  | PosInf, NegInf | NegInf, PosInf => NegInf
  end.

(** [Math.round(x)]: the nearest integer, halves going up. *)
Definition Math_round (x : number) : number :=
  match x with
  | Fin q => num (Qfloor (q + (1 # 2)))
  | _ => x
  end.

(** [Math.max(a, b)]: NaN as soon as one argument is NaN. *)
Definition Math_max (a b : number) : number :=
  match a, b with
  | NaN, _ | _, NaN => NaN
  | PosInf, _ | _, PosInf => PosInf
  | NegInf, y => y
  | x, NegInf => x
  | Fin x, Fin y => if Qle_bool x y then Fin y else Fin x
  end.

(** [a < b]: false as soon as one side is NaN. *)
Definition num_ltb (a b : number) : bool :=
  match a, b with
  | NaN, _ | _, NaN => false
  | _, NegInf => false
  | NegInf, _ => true
  | PosInf, _ => false
  | Fin _, PosInf => true
  | Fin x, Fin y => negb (Qle_bool y x)
  end.

(** [a <= b] as a proposition, for stating bounds. *)
Definition num_le (a b : number) : Prop :=
  match a, b with
  | NaN, _ | _, NaN => False
  | NegInf, _ => True
  | _, PosInf => True
  | _, NegInf => False
  | PosInf, _ => False
  | Fin x, Fin y => (x <= y)%Q
  end.

(** ** Strings *)

(** [s.replaceAll(pat, rep)] for a pattern and a replacement of one
    character each, the only way the page calls it. *)
Fixpoint replaceAll (pat rep : ascii) (s : string) : string :=
  match s with
  | EmptyString => EmptyString
  | String c rest =>
      String (if Ascii.eqb c pat then rep else c) (replaceAll pat rep rest)
  end.

(** [s.endsWith(suffix)] *)
Definition endsWith (s suffix : string) : bool :=
  let n := String.length s in
  let k := String.length suffix in
  (k <=? n)%nat && String.eqb (substring (n - k) k s) suffix.

(** ** Constants and the UI state *)

Definition WIDTH : Z := 1280.
Definition HEIGHT : Z := 720.

Inductive RecordingState : Type :=
| idle
| recording (startedAt : Q)
| processing
| done (url : string) (size : N) (fileName : string) (durationMs : number)
| error (message : string).

(** The [status] tag of the variant. *)
Definition status (s : RecordingState) : string :=
  match s with
  | idle => "idle"
  | recording _ => "recording"
  | processing => "processing"
  | done _ _ _ _ => "done"
  | error _ => "error"
  end.

(** [disabled]: the record button is disabled while recording or
    processing. *)
Definition disabled (s : RecordingState) : bool :=
  String.eqb (status s) "recording" || String.eqb (status s) "processing".

Inductive Theme : Type := electric | sunset.

(** The form values the record handler closes over. *)
Record Inputs : Type := {
  title : string;
  subtitle : string;
  durationSec : number;
  fps : number;
  theme : Theme
}.

(** ** Browser objects *)

Record Blob : Type := {
  blob_bytes : list byte;
  blob_type : string
}.

Definition blob_size (b : Blob) : N := N.of_nat (List.length (blob_bytes b)).

(** [new Blob(parts, { type })]: the parts' bytes, one after the other. *)
Definition new_Blob_of (parts : list Blob) (type : string) : Blob :=
  {| blob_bytes := List.concat (map blob_bytes parts); blob_type := type |}.

Record Canvas : Type := {
  width : Z;
  height : Z;
  has_captureStream : bool
}.

(** What [canvas.captureStream(fps)] returns: a stream of the canvas as it
    is sized at the time of the call. *)
Record MediaStream : Type := {
  stream_width : Z;
  stream_height : Z;
  frameRequestRate : number
}.

Inductive RecorderState : Type := rs_inactive | rs_recording.

Record MediaRecorder : Type := {
  rec_stream : MediaStream;
  mimeType : string;
  videoBitsPerSecond : Z;
  rec_state : RecorderState;
  timeslice : option Z;
  has_ondataavailable : bool
}.

(** A value that was thrown: [null]/[undefined], or an object with or
    without a [message]. *)
Inductive Thrown : Type :=
| thrown_nullish
| thrown_object (message : option string).

(** The calls into the browser that may raise. *)
Inductive Call : Type :=
| call_captureStream
| call_new_MediaRecorder
| call_toISOString
| call_replaceAll
| call_recorder_start
| call_recorder_stop
| call_new_Blob
| call_createObjectURL.

(** What the browser delivers while the handler waits for its timer. *)
Inductive Event : Type :=
| ev_frame (now : Q)                    (* an animation frame callback *)
| ev_dataavailable (data : option Blob)
    (* a dataavailable event of a recorder, current or earlier, that
       carries the handler of the page *).

(** The browser the page runs in. *)
Record Browser : Type := {
  has_window : bool;
  (** [None]: [typeof MediaRecorder === "undefined"] *)
  MediaRecorder_isTypeSupported : option (string -> bool)
}.

(** The circumstances of one handler run. *)
Record Run : Type := {
  toISOString : string;               (* [new Date().toISOString()] *)
  createObjectURL : Blob -> string;   (* [URL.createObjectURL] *)
  throws : Call -> option Thrown;     (* the calls that raise, and what *)
  during : list Event                 (* events delivered during the wait *)
}.

(** The calls whose order the properties speak about. *)
Inductive Effect : Type :=
| Eff_setState (s : RecordingState)
| Eff_captureStream (c : Canvas) (fps : number)
| Eff_new_MediaRecorder (r : MediaRecorder)
| Eff_recorder_start (r : MediaRecorder) (timeslice : Z)
| Eff_start (durationMs : number)
| Eff_setTimeout (ms : number)
| Eff_timer_elapsed (ms : number)
| Eff_recorder_stop
| Eff_stop
| Eff_new_Blob (parts : list Blob) (type : string)
| Eff_createObjectURL (b : Blob).

(** ** The MIME type selection, [supported] *)

Definition supported (B : Browser) : option string :=
  let mime := "video/webm;codecs=vp9,opus" in
  if negb (has_window B) then None
  else
    match MediaRecorder_isTypeSupported B with
    | None => None
    | Some isTypeSupported =>
        if isTypeSupported mime then Some mime
        else if isTypeSupported "video/webm;codecs=vp8,opus"
             then Some "video/webm;codecs=vp8,opus"
        else if isTypeSupported "video/webm" then Some "video/webm"
        else None
    end.

(** ** The page: React state, refs, and the browser state they touch *)

Record Page : Type := {
  (* useState / useRef cells *)
  state : RecordingState;
  canvasRef : option Canvas;
  rafRef : option nat;
  startTimeRef : Q;
  mediaRecorderRef : option MediaRecorder;
  chunksRef : list Blob;
  (* browser side *)
  raf_scheduled : option (nat * number);
    (* the pending animation frame callback: its handle and the
       [durationMs] its [tick] closure captured *)
  raf_last : nat;  (* the last handle [requestAnimationFrame] returned *)
  clock : Q        (* what [performance.now()] returns *)
}.

Definition set_state (s : RecordingState) (p : Page) : Page :=
  {| state := s; canvasRef := canvasRef p; rafRef := rafRef p;
     startTimeRef := startTimeRef p; mediaRecorderRef := mediaRecorderRef p;
     chunksRef := chunksRef p; raf_scheduled := raf_scheduled p;
     raf_last := raf_last p; clock := clock p |}.

Definition set_canvasRef (c : option Canvas) (p : Page) : Page :=
  {| state := state p; canvasRef := c; rafRef := rafRef p;
     startTimeRef := startTimeRef p; mediaRecorderRef := mediaRecorderRef p;
     chunksRef := chunksRef p; raf_scheduled := raf_scheduled p;
     raf_last := raf_last p; clock := clock p |}.

Definition set_rafRef (h : option nat) (p : Page) : Page :=
  {| state := state p; canvasRef := canvasRef p; rafRef := h;
     startTimeRef := startTimeRef p; mediaRecorderRef := mediaRecorderRef p;
     chunksRef := chunksRef p; raf_scheduled := raf_scheduled p;
     raf_last := raf_last p; clock := clock p |}.

Definition set_startTimeRef (t : Q) (p : Page) : Page :=
  {| state := state p; canvasRef := canvasRef p; rafRef := rafRef p;
     startTimeRef := t; mediaRecorderRef := mediaRecorderRef p;
     chunksRef := chunksRef p; raf_scheduled := raf_scheduled p;
     raf_last := raf_last p; clock := clock p |}.

Definition set_mediaRecorderRef (r : option MediaRecorder) (p : Page) : Page :=
  {| state := state p; canvasRef := canvasRef p; rafRef := rafRef p;
     startTimeRef := startTimeRef p; mediaRecorderRef := r;
     chunksRef := chunksRef p; raf_scheduled := raf_scheduled p;
     raf_last := raf_last p; clock := clock p |}.

Definition set_chunksRef (l : list Blob) (p : Page) : Page :=
  {| state := state p; canvasRef := canvasRef p; rafRef := rafRef p;
     startTimeRef := startTimeRef p; mediaRecorderRef := mediaRecorderRef p;
     chunksRef := l; raf_scheduled := raf_scheduled p;
     raf_last := raf_last p; clock := clock p |}.

Definition set_raf_scheduled (s : option (nat * number)) (p : Page) : Page :=
  {| state := state p; canvasRef := canvasRef p; rafRef := rafRef p;
     startTimeRef := startTimeRef p; mediaRecorderRef := mediaRecorderRef p;
     chunksRef := chunksRef p; raf_scheduled := s;
     raf_last := raf_last p; clock := clock p |}.

Definition set_raf_last (n : nat) (p : Page) : Page :=
  {| state := state p; canvasRef := canvasRef p; rafRef := rafRef p;
     startTimeRef := startTimeRef p; mediaRecorderRef := mediaRecorderRef p;
     chunksRef := chunksRef p; raf_scheduled := raf_scheduled p;
     raf_last := n; clock := clock p |}.

Definition set_clock (t : Q) (p : Page) : Page :=
  {| state := state p; canvasRef := canvasRef p; rafRef := rafRef p;
     startTimeRef := startTimeRef p; mediaRecorderRef := mediaRecorderRef p;
     chunksRef := chunksRef p; raf_scheduled := raf_scheduled p;
     raf_last := raf_last p; clock := t |}.

(** ** Handlers as computations: page state, a log of calls, exceptions *)

Inductive Completion (A : Type) : Type :=
| Normal (a : A)
| Throw (e : Thrown).
Arguments Normal {A} a.
Arguments Throw {A} e.

Record Outcome (A : Type) : Type := {
  completion : Completion A;
  page : Page;
  effects : list Effect
}.
Arguments completion {A} o.
Arguments page {A} o.
Arguments effects {A} o.

Definition M (A : Type) : Type := Page -> Outcome A.

Definition ret {A} (a : A) : M A :=
  fun p => {| completion := Normal a; page := p; effects := [] |}.

Definition throw {A} (e : Thrown) : M A :=
  fun p => {| completion := Throw e; page := p; effects := [] |}.

Definition bind {A B} (c : M A) (k : A -> M B) : M B :=
  fun p =>
    match c p with
    | {| completion := Normal a; page := p1; effects := l1 |} =>
        match k a p1 with
        | {| completion := r; page := p2; effects := l2 |} =>
            {| completion := r; page := p2; effects := l1 ++ l2 |}
        end
    | {| completion := Throw e; page := p1; effects := l1 |} =>
        {| completion := Throw e; page := p1; effects := l1 |}
    end.

Notation "x <- c ;; k" := (bind c (fun x => k))
  (at level 61, c at next level, right associativity).
Notation "c ;; k" := (bind c (fun _ => k))
  (at level 61, right associativity).

(** [try { body } catch (err) { handler }] *)
Definition try_catch (body : M unit) (handler : Thrown -> M unit) : M unit :=
  fun p =>
    match body p with
    | {| completion := Normal a; page := p1; effects := l1 |} =>
        {| completion := Normal a; page := p1; effects := l1 |}
    | {| completion := Throw err; page := p1; effects := l1 |} =>
        match handler err p1 with
        | {| completion := r; page := p2; effects := l2 |} =>
            {| completion := r; page := p2; effects := l1 ++ l2 |}
        end
    end.

Definition gets {A} (f : Page -> A) : M A :=
  fun p => {| completion := Normal (f p); page := p; effects := [] |}.

Definition modify (f : Page -> Page) : M unit :=
  fun p => {| completion := Normal tt; page := f p; effects := [] |}.

Definition emit (e : Effect) : M unit :=
  fun p => {| completion := Normal tt; page := p; effects := [e] |}.

(** A call into the browser raises what the run says it raises. *)
Definition call (R : Run) (c : Call) : M unit :=
  match throws R c with
  | Some e => throw e
  | None => ret tt
  end.

Definition setState (s : RecordingState) : M unit :=
  modify (set_state s) ;; emit (Eff_setState s).

(** ** [useCanvasAnimation]: [start], [tick], [stop] *)

Definition requestAnimationFrame (durationMs : number) (p : Page) : nat * Page :=
  let h := S (raf_last p) in
  (h, set_raf_scheduled (Some (h, durationMs)) (set_raf_last h p)).

Definition cancelAnimationFrame (h : nat) (p : Page) : Page :=
  match raf_scheduled p with
  | Some (h', _) => if Nat.eqb h h' then set_raf_scheduled None p else p
  | None => p
  end.

(** [if (rafRef.current) cancelAnimationFrame(rafRef.current)]: a handle is
    truthy when it is not [null] and not [0]. *)
Definition cancel_if_rafRef (p : Page) : Page :=
  match rafRef p with
  | Some (S h) => cancelAnimationFrame (S h) p
  | _ => p
  end.

(** The body of [tick], run by the browser at time [clock p].  Its
    [setProgress] and [drawFrame] calls change the progress value and the
    canvas pixels only, which nothing else here reads. *)
Definition tick (durationMs : number) (p : Page) : Page :=
  let now := clock p in
  let elapsed := (now - startTimeRef p)%Q in
  if num_ltb (Fin elapsed) durationMs then
    let (h, p') := requestAnimationFrame durationMs p in
    set_rafRef (Some h) p'
  else p.

Definition start (durationMs : number) (title subtitle : string) (theme : Theme)
  : M unit :=
  modify cancel_if_rafRef ;;
  now <- gets clock ;;
  modify (set_startTimeRef now) ;;
  modify (fun p =>
            let (h, p') := requestAnimationFrame durationMs p in
            set_rafRef (Some h) p') ;;
  emit (Eff_start durationMs).

Definition stop : M unit :=
  modify cancel_if_rafRef ;;
  modify (set_rafRef None) ;;
  emit Eff_stop.

(** ** Events delivered by the browser *)

(** [recorder.ondataavailable] *)
Definition ondataavailable (data : option Blob) (p : Page) : Page :=
  match data with
  | Some b =>
      if (0 <? blob_size b)%N then set_chunksRef (chunksRef p ++ [b]) p
      else p
  | None => p
  end.

Definition dispatch (p : Page) (e : Event) : Page :=
  match e with
  | ev_frame now =>
      match raf_scheduled p with
      | Some (_, durationMs) =>
          tick durationMs (set_raf_scheduled None (set_clock now p))
      | None => set_clock now p
      end
  | ev_dataavailable data => ondataavailable data p
  end.

(** ** The record handler *)

(** [canvas.width = WIDTH; canvas.height = HEIGHT] on [canvasRef.current!]:
    a [TypeError] when the ref is still [null]. *)
Definition set_canvas_size : M unit :=
  canvas <- gets canvasRef ;;
  match canvas with
  | None =>
      throw (thrown_object
               (Some "Cannot set properties of null (setting 'width')"))
  | Some c =>
      modify (set_canvasRef
                (Some {| width := WIDTH; height := HEIGHT;
                         has_captureStream := has_captureStream c |}))
  end.

(** [(canvas as any).captureStream?.(fps)]: [undefined] when the canvas has
    no such method, else the stream of the canvas as it is now. *)
Definition captureStream (R : Run) (fps : number) : M (option MediaStream) :=
  canvas <- gets canvasRef ;;
  match canvas with
  | None => ret None
  | Some c =>
      if has_captureStream c then
        call R call_captureStream ;;
        emit (Eff_captureStream c fps) ;;
        ret (Some {| stream_width := width c; stream_height := height c;
                     frameRequestRate := fps |})
      else ret None
  end.

(** [new MediaRecorder(stream, { mimeType, videoBitsPerSecond })] *)
Definition new_MediaRecorder (R : Run) (stream : MediaStream)
    (mime : string) (bits : Z) : M MediaRecorder :=
  call R call_new_MediaRecorder ;;
  let r := {| rec_stream := stream; mimeType := mime;
              videoBitsPerSecond := bits; rec_state := rs_inactive;
              timeslice := None; has_ondataavailable := false |} in
  emit (Eff_new_MediaRecorder r) ;;
  ret r.

(** The local [recorder] and [mediaRecorderRef.current] are one object:
    the recorder is kept in the ref and updated there. *)
Definition update_recorder (f : MediaRecorder -> MediaRecorder) : M unit :=
  modify (fun p => set_mediaRecorderRef (option_map f (mediaRecorderRef p)) p).

Definition set_ondataavailable : M unit :=
  update_recorder (fun r =>
    {| rec_stream := rec_stream r; mimeType := mimeType r;
       videoBitsPerSecond := videoBitsPerSecond r; rec_state := rec_state r;
       timeslice := timeslice r; has_ondataavailable := true |}).

(** [recorder.start(timeslice)] *)
Definition recorder_start (R : Run) (ms : Z) : M unit :=
  call R call_recorder_start ;;
  update_recorder (fun r =>
    {| rec_stream := rec_stream r; mimeType := mimeType r;
       videoBitsPerSecond := videoBitsPerSecond r; rec_state := rs_recording;
       timeslice := Some ms; has_ondataavailable := has_ondataavailable r |}) ;;
  r <- gets mediaRecorderRef ;;
  match r with
  | Some r => emit (Eff_recorder_start r ms)
  | None => ret tt
  end.

(** [recorder.stop()] *)
Definition recorder_stop (R : Run) : M unit :=
  call R call_recorder_stop ;;
  update_recorder (fun r =>
    {| rec_stream := rec_stream r; mimeType := mimeType r;
       videoBitsPerSecond := videoBitsPerSecond r; rec_state := rs_inactive;
       timeslice := timeslice r; has_ondataavailable := has_ondataavailable r |}) ;;
  emit Eff_recorder_stop.

(** [Math.max(1000, Math.round(durationSec * 1000))] *)
Definition durationMs_of (durationSec : number) : number :=
  Math_max (num 1000) (Math_round (num_mul durationSec (num 1000))).

(** ["youtube-720p-" + iso.replaceAll(":", "-").replaceAll(".", "-") + ".webm"] *)
Definition fileName_of (iso : string) : string :=
  "youtube-720p-" ++ replaceAll "." "-" (replaceAll ":" "-" iso) ++ ".webm".

Definition make_fileName (R : Run) : M string :=
  call R call_toISOString ;;
  call R call_replaceAll ;;
  ret (fileName_of (toISOString R)).

(** [await new Promise(resolve => setTimeout(resolve, durationMs))]: the
    browser delivers events to the page until the timer has elapsed. *)
Definition await_timeout (durationMs : number) (events : list Event) : M unit :=
  emit (Eff_setTimeout durationMs) ;;
  modify (fun p => fold_left dispatch events p) ;;
  emit (Eff_timer_elapsed durationMs).

(** [new Blob(chunksRef.current, { type: supported })] *)
Definition new_Blob (R : Run) (parts : list Blob) (type : string) : M Blob :=
  call R call_new_Blob ;;
  emit (Eff_new_Blob parts type) ;;
  ret (new_Blob_of parts type).

Definition URL_createObjectURL (R : Run) (b : Blob) : M string :=
  call R call_createObjectURL ;;
  emit (Eff_createObjectURL b) ;;
  ret (createObjectURL R b).

(** The body of the [try] block. *)
Definition handleRecord_body (B : Browser) (inp : Inputs) (R : Run) : M unit :=
  match supported B with
  | None => setState (error "MediaRecorder not supported in this browser.")
  | Some supported =>
      set_canvas_size ;;
      stream <- captureStream R (fps inp) ;;
      match stream with
      | None => setState (error "Canvas captureStream not supported.")
      | Some stream =>
          modify (set_chunksRef []) ;;
          recorder <- new_MediaRecorder R stream supported 4000000 ;;
          modify (set_mediaRecorderRef (Some recorder)) ;;
          let durationMs := durationMs_of (durationSec inp) in
          fileName <- make_fileName R ;;
          set_ondataavailable ;;
          startedAt <- gets clock ;;
          setState (recording startedAt) ;;
          recorder_start R 100 ;;
          start durationMs (title inp) (subtitle inp) (theme inp) ;;
          await_timeout durationMs (during R) ;;
          recorder_stop R ;;
          stop ;;
          setState processing ;;
          chunks <- gets chunksRef ;;
          blob <- new_Blob R chunks supported ;;
          url <- URL_createObjectURL R blob ;;
          setState (done url (blob_size blob) fileName durationMs)
      end
  end.

(** [err?.message ?? "Recording failed."] *)
Definition message_of (err : Thrown) : string :=
  match err with
  | thrown_object (Some m) => m
  | _ => "Recording failed."
  end.

Definition handleRecord (B : Browser) (inp : Inputs) (R : Run) : M unit :=
  try_catch (handleRecord_body B inp R)
            (fun err => setState (error (message_of err))).

(** ** [reset], the rendered download link, and a session of the page *)

Definition reset (R : Run) : M unit :=
  setState idle ;;
  modify (set_chunksRef []) ;;
  r <- gets mediaRecorderRef ;;
  match r with
  | Some _ => recorder_stop R
  | None => ret tt
  end.

Record Anchor : Type := { href : string; download : string }.

(** The [<a className="download" href=... download=...>] of the view, which
    is rendered in the done state only. *)
Definition download_link (s : RecordingState) : option Anchor :=
  match s with
  | done url _ fileName _ => Some {| href := url; download := fileName |}
  | _ => None
  end.

(** The page as first rendered and mounted: the canvas element carries the
    [width] and [height] attributes of the view. *)
Definition mount (canvas_can_capture : bool) : Page :=
  {| state := idle;
     canvasRef := Some {| width := WIDTH; height := HEIGHT;
                          has_captureStream := canvas_can_capture |};
     rafRef := None; startTimeRef := 0; mediaRecorderRef := None;
     chunksRef := []; raf_scheduled := None; raf_last := 0%nat; clock := 0 |}.

(** What happens to a mounted page: the user clicks a button, or the
    browser delivers an event. *)
Inductive Action : Type :=
| click_record (inp : Inputs) (R : Run)
| click_reset (R : Run)
| deliver (e : Event).

(** The reset button is rendered outside the idle state and disabled while
    recording; the record button is disabled by [disabled]. *)
Definition perform (B : Browser) (a : Action) : M unit :=
  fun p =>
    match a with
    | click_record inp R =>
        if disabled (state p) then ret tt p else handleRecord B inp R p
    | click_reset R =>
        if String.eqb (status (state p)) "idle"
           || String.eqb (status (state p)) "recording"
        then ret tt p else reset R p
    | deliver e => modify (fun p => dispatch p e) p
    end.

(** An exception that escapes a handler ends that handler only. *)
Fixpoint session (B : Browser) (acts : list Action) (p : Page)
  : Page * list Effect :=
  match acts with
  | [] => (p, [])
  | a :: rest =>
      let o := perform B a p in
      let (p', l) := session B rest (page o) in
      (p', (effects o ++ l)%list)
  end.

(** ** Vocabulary of the properties *)

(** The chunks a list of delivered events leaves in the buffer: the
    non-empty blobs of its dataavailable events, in order. *)
Definition chunk_of (e : Event) : list Blob :=
  match e with
  | ev_dataavailable (Some b) => if (0 <? blob_size b)%N then [b] else []
  | _ => []
  end.

Definition collected (events : list Event) : list Blob :=
  flat_map chunk_of events.

Definition nonempty_chunks (l : list Blob) : Prop :=
  Forall (fun b => (0 < blob_size b)%N) l.

(** The states a list of calls sets, in order. *)
Definition states_set (l : list Effect) : list RecordingState :=
  flat_map (fun e => match e with Eff_setState s => [s] | _ => [] end) l.

(** Position of a state along idle, recording, processing, done/error. *)
Definition stage (s : RecordingState) : nat :=
  match s with
  | idle => 0
  | recording _ => 1
  | processing => 2
  | done _ _ _ _ | error _ => 3
  end.

(** Every transition of the path [s0 :: l] moves forward along the stages. *)
Fixpoint moves_forward (s0 : RecordingState) (l : list RecordingState) : Prop :=
  match l with
  | [] => True
  | s1 :: rest => (stage s0 < stage s1)%nat /\ moves_forward s1 rest
  end.

(** The bitrates of the recorders a handler run creates. *)
Definition recorder_bitrates (l : list Effect) : list Z :=
  flat_map (fun e => match e with
                     | Eff_new_MediaRecorder r => [videoBitsPerSecond r]
                     | _ => []
                     end) l.



(** The range the duration input announces with [min={2}] and [max={60}],
    in milliseconds. *)
Definition duration_input_min : Z := 2.
Definition duration_input_max : Z := 60.

Definition within_input_range (ms : number) : Prop :=
  num_le (num (duration_input_min * 1000)) ms /\
  num_le ms (num (duration_input_max * 1000)).

(** The pending animation callback, if any, is the one [rafRef] names. *)
Definition sched_ok (p : Page) : Prop :=
  match raf_scheduled p with
  | Some (h, _) => rafRef p = Some h /\ h <> 0%nat
  | None => True
  end.

(** None of the three WebM types can be recorded: [MediaRecorder] is
    absent, or it supports none of them. *)
Definition none_supported (B : Browser) : Prop :=
  match MediaRecorder_isTypeSupported B with
  | None => True
  | Some isTypeSupported =>
      isTypeSupported "video/webm;codecs=vp9,opus" = false /\
      isTypeSupported "video/webm;codecs=vp8,opus" = false /\
      isTypeSupported "video/webm" = false
  end.

(** The bitrate would be configurable if two choices of form values could
    lead to recorders with different bitrates. *)
Definition bitrate_configurable : Prop :=
  exists B R p inp1 inp2 b1 b2,
    In b1 (recorder_bitrates (effects (handleRecord B inp1 R p))) /\
    In b2 (recorder_bitrates (effects (handleRecord B inp2 R p))) /\
    b1 <> b2.

(** The objects and the calls of a run in which nothing fails. *)
Definition captured_stream (inp : Inputs) : MediaStream :=
  {| stream_width := WIDTH; stream_height := HEIGHT;
     frameRequestRate := fps inp |}.

Definition created_recorder (inp : Inputs) (mime : string) : MediaRecorder :=
  {| rec_stream := captured_stream inp; mimeType := mime;
     videoBitsPerSecond := 4000000; rec_state := rs_inactive;
     timeslice := None; has_ondataavailable := false |}.

Definition started_recorder (inp : Inputs) (mime : string) : MediaRecorder :=
  {| rec_stream := captured_stream inp; mimeType := mime;
     videoBitsPerSecond := 4000000; rec_state := rs_recording;
     timeslice := Some 100%Z; has_ondataavailable := true |}.

Definition successful_calls (inp : Inputs) (R : Run) (mime : string)
    (startedAt : Q) : list Effect :=
  let d := durationMs_of (durationSec inp) in
  let parts := collected (during R) in
  let blob := new_Blob_of parts mime in
  [ Eff_captureStream
      {| width := WIDTH; height := HEIGHT; has_captureStream := true |}
      (fps inp);
    Eff_new_MediaRecorder (created_recorder inp mime);
    Eff_setState (recording startedAt);
    Eff_recorder_start (started_recorder inp mime) 100;
    Eff_start d;
    Eff_setTimeout d;
    Eff_timer_elapsed d;
    Eff_recorder_stop;
    Eff_stop;
    Eff_setState processing;
    Eff_new_Blob parts mime;
    Eff_createObjectURL blob;
    Eff_setState (done (createObjectURL R blob) (blob_size blob)
                       (fileName_of (toISOString R)) d) ].

(** ** Sample browsers, inputs and runs *)

Definition chrome : Browser :=
  {| has_window := true; MediaRecorder_isTypeSupported := Some (fun _ => true) |}.

(** A browser whose recorder knows the VP8 type only. *)
Definition vp8_only : Browser :=
  {| has_window := true;
     MediaRecorder_isTypeSupported :=
       Some (String.eqb "video/webm;codecs=vp8,opus") |}.

Definition chunk2 : Blob :=
  {| blob_bytes := [x1a; x45]; blob_type := "video/webm" |}.
Definition chunk0 : Blob :=
  {| blob_bytes := []; blob_type := "video/webm" |}.

Definition sample_inputs : Inputs :=
  {| title := "Your YouTube Title"; subtitle := "Subtitle";
     durationSec := num 6; fps := num 30; theme := electric |}.

Definition long_inputs : Inputs :=
  {| title := "Another title"; subtitle := "Other";
     durationSec := num 100; fps := num 60; theme := sunset |}.

Definition sample_run : Run :=
  {| toISOString := "2024-05-06T07:08:09.123Z";
     createObjectURL := fun _ => "blob:https://example/1";
     throws := fun _ => None;
     during := [ev_frame 16; ev_dataavailable (Some chunk2);
                ev_dataavailable (Some chunk0); ev_dataavailable None;
                ev_frame 7000; ev_dataavailable (Some chunk2)] |}.


Definition short_inputs : Inputs :=
  {| title := "Short"; subtitle := "One second";
     durationSec := num 1; fps := num 24; theme := electric |}.

(** A run in which the [MediaRecorder] constructor rejects its options. *)
Definition failing_run : Run :=
  {| toISOString := "2024-05-06T07:08:09.123Z";
     createObjectURL := fun _ => "blob:https://example/1";
     throws := fun c => match c with
                        | call_new_MediaRecorder =>
                            Some (thrown_object (Some "NotSupportedError"))
                        | _ => None
                        end;
     during := [] |}.

(** A canvas that still has the default element size. *)
Definition small_canvas_page : Page :=
  set_canvasRef (Some {| width := 300; height := 150;
                         has_captureStream := true |}) (mount true).

(** The page after one successful recording. *)
Definition recorded_page : Page :=
  page (handleRecord chrome sample_inputs sample_run (mount true)).

(** ** More of the page: the size label, the progress bar, the cleanup *)

(** [x.toFixed(2)] for [0 <= x < 10^21]: the integer [n] for which
    [n / 100] is nearest to [x], the larger one of two, written with two
    digits after the point.  From [10^21] on [toFixed] gives the exponent
    notation of [String(x)], which is outside this model: [None]. *)
Definition toFixed2_hundredths (x : Q) : N :=
  Z.to_N (Qfloor (x * 100 + (1 # 2))).

Definition digit (n : N) : ascii :=
  ascii_of_N (48 + n mod 10).

Definition two_digits (n : N) : string :=
  String (digit (n / 10)) (String (digit n) EmptyString).

Definition decimal (n : N) : string :=
  NilEmpty.string_of_uint (N.to_uint n).

Definition toFixed2 (x : Q) : option string :=
  if Qle_bool (inject_Z (10 ^ 21)) x then None
  else
    let n := toFixed2_hundredths x in
    Some (decimal (n / 100) ++ "." ++ two_digits (n mod 100)).

(** [bytesToMb(b)]: [(b / (1024 * 1024)).toFixed(2)], for a size [b] that a
    double holds exactly, a whole number up to [2^53]; a larger one is
    outside this model: [None].  The division of such a size by a power of
    two is exact in doubles. *)
Definition bytesToMb (b : N) : option string :=
  if (b <=? 2 ^ 53)%N
  then toFixed2 (inject_Z (Z.of_N b) / (1024 * 1024))
  else None.

(** The label of the download link. *)
Definition download_label (s : RecordingState) : option string :=
  match s with
  | done _ size _ _ =>
      option_map (fun mb => "Download video (" ++ mb ++ " MB)")
                 (bytesToMb size)
  | _ => None
  end.

(** [Math.min(a, b)]: NaN as soon as one argument is NaN. *)
Definition Math_min (a b : number) : number :=
  match a, b with
  | NaN, _ | _, NaN => NaN
  | NegInf, _ | _, NegInf => NegInf
  | PosInf, y => y
  | x, PosInf => x
  | Fin x, Fin y => if Qle_bool x y then Fin x else Fin y
  end.

(** The progress indicator of [drawFrame]: the track and the filled part,
    as the arguments of the two [fillRect] calls. *)
Record Rect : Type := {
  rect_x : Q;
  rect_y : Q;
  rect_w : number;
  rect_h : Q
}.

Definition barWidth : Q := Qmin (inject_Z WIDTH * (6 # 10)) 720.
Definition barX : Q := (inject_Z WIDTH - barWidth) / 2.
Definition barY : Q := inject_Z HEIGHT - 60.

Definition progress_track : Rect :=
  {| rect_x := barX; rect_y := barY; rect_w := Fin barWidth; rect_h := 8 |}.

Definition progress_fill (progress : number) : Rect :=
  let p := Math_max (num 0) (Math_min (num 1) progress) in
  {| rect_x := barX; rect_y := barY;
     rect_w := num_mul (Fin barWidth) p; rect_h := 8 |}.

(** The cleanup of the effect of [useCanvasAnimation], run when the page is
    unmounted: [if (rafRef.current) cancelAnimationFrame(rafRef.current)]. *)
Definition unmount_cleanup (p : Page) : Page := cancel_if_rafRef p.

(** [s.includes(c)] for one character. *)
Fixpoint includes (c : ascii) (s : string) : bool :=
  match s with
  | EmptyString => false
  | String c' rest => Ascii.eqb c' c || includes c rest
  end.

(** The sizes of a list of blobs, added up. *)
Fixpoint total_size (l : list Blob) : N :=
  match l with
  | [] => 0%N
  | b :: rest => (blob_size b + total_size rest)%N
  end.

(** The bytes of the data of the dataavailable events, present or not,
    empty or not. *)
Fixpoint delivered_size (events : list Event) : N :=
  match events with
  | [] => 0%N
  | ev_dataavailable (Some b) :: rest => (blob_size b + delivered_size rest)%N
  | _ :: rest => delivered_size rest
  end.


(** A run in which nothing stands in the way of a recording. *)
Definition nothing_fails (B : Browser) (R : Run) (p : Page) : Prop :=
  supported B <> None /\
  (exists c, canvasRef p = Some c /\ has_captureStream c = true) /\
  (forall c, throws R c = None).

(** The recorder of the sample run, as it is when it is started. *)
Definition sample_started_recorder : MediaRecorder :=
  {| rec_stream := {| stream_width := 1280; stream_height := 720;
                      frameRequestRate := num 30 |};
     mimeType := "video/webm;codecs=vp9,opus";
     videoBitsPerSecond := 4000000; rec_state := rs_recording;
     timeslice := Some 100%Z; has_ondataavailable := true |}.

(** ** Reduction control and tactics *)

Arguments cancel_if_rafRef : simpl never.
Arguments durationMs_of : simpl never.
Arguments fileName_of : simpl never.
Arguments new_Blob_of : simpl never.
Arguments blob_size : simpl never.
Arguments num_ltb : simpl never.
Arguments pow2 : simpl never.
Arguments round64 : simpl never.
Arguments WIDTH : simpl never.
Arguments HEIGHT : simpl never.

(** Expose the sequence of steps of a handler. *)
Ltac unfold_ops :=
  cbv beta delta
    [handleRecord handleRecord_body try_catch bind ret throw gets modify emit
     call setState set_canvas_size captureStream new_MediaRecorder
     update_recorder set_ondataavailable recorder_start recorder_stop
     make_fileName await_timeout new_Blob URL_createObjectURL start stop
     reset].

(** Split on every call that may raise. *)
Ltac case_throws R :=
  repeat match goal with
  | |- context [throws R ?c] =>
      let E := fresh "Hthrow" in destruct (throws R c) eqn:E; cbn
  end.

(** Run the handler on a symbolic page: one goal per way it can go. *)
Ltac run_handler B R p :=
  unfold_ops;
  let mime := fresh "mime" in
  let Hsup := fresh "Hsup" in
  destruct (supported B) as [mime|] eqn:Hsup; cbn;
  [ let c := fresh "c" in
    let Hc := fresh "Hc" in
    destruct (canvasRef p) as [c|] eqn:Hc; cbn;
    [ let Hcap := fresh "Hcap" in
      destruct (has_captureStream c) eqn:Hcap; cbn;
      [ case_throws R | ]
    | ]
  | ].

(** Membership in an explicit list of calls. *)
Ltac in_cases H :=
  cbn in H;
  repeat match type of H with
  | _ \/ _ => destruct H as [H|H]
  end;
  try contradiction; try discriminate H.

(** ** Lemmas on the animation loop and the delivered events *)

Section Animation.

Ltac cancel_cases p :=
  unfold cancel_if_rafRef, cancelAnimationFrame;
  destruct (rafRef p) as [[|?]|]; try reflexivity;
  destruct (raf_scheduled p) as [[? ?]|]; try reflexivity;
  cbv beta iota;
  match goal with |- context [Nat.eqb ?a ?b] => destruct (Nat.eqb a b) end;
  reflexivity.

Lemma cancel_if_rafRef_state p : state (cancel_if_rafRef p) = state p.
Proof. cancel_cases p. Qed.

Lemma cancel_if_rafRef_canvasRef p :
  canvasRef (cancel_if_rafRef p) = canvasRef p.
Proof. cancel_cases p. Qed.

Lemma cancel_if_rafRef_rafRef p : rafRef (cancel_if_rafRef p) = rafRef p.
Proof.
  unfold cancel_if_rafRef, cancelAnimationFrame.
  destruct (rafRef p) as [[|h]|] eqn:Hr; try assumption.
  destruct (raf_scheduled p) as [[h' d]|]; try assumption.
  destruct (Nat.eqb (S h) h'); assumption.
Qed.

Lemma cancel_if_rafRef_mediaRecorderRef p :
  mediaRecorderRef (cancel_if_rafRef p) = mediaRecorderRef p.
Proof. cancel_cases p. Qed.

Lemma cancel_if_rafRef_chunksRef p :
  chunksRef (cancel_if_rafRef p) = chunksRef p.
Proof. cancel_cases p. Qed.

(** [stop] does stop the loop: with the pending callback named by
    [rafRef], cancelling through [rafRef] leaves none pending. *)
Lemma cancel_if_rafRef_clears p :
  sched_ok p -> raf_scheduled (cancel_if_rafRef p) = None.
Proof.
  unfold sched_ok, cancel_if_rafRef, cancelAnimationFrame.
  destruct (raf_scheduled p) as [[h d]|] eqn:Hs.
  - intros [Href Hnz]. rewrite Href.
    destruct h as [|h]; [congruence|].
    cbv beta iota. rewrite Nat.eqb_refl. reflexivity.
  - intros _. destruct (rafRef p) as [[|h]|]; assumption.
Qed.

Lemma dispatch_mediaRecorderRef p e :
  mediaRecorderRef (dispatch p e) = mediaRecorderRef p.
Proof.
  destruct e as [now|[b|]]; cbn.
  - destruct (raf_scheduled p) as [[h d]|]; [|reflexivity].
    unfold tick; cbn. destruct (num_ltb _ _); reflexivity.
  - destruct (0 <? blob_size b)%N; reflexivity.
  - reflexivity.
Qed.

Lemma dispatch_sched_ok p e : sched_ok p -> sched_ok (dispatch p e).
Proof.
  intros Hp. destruct e as [now|data]; cbn.
  - destruct (raf_scheduled p) as [[h d]|] eqn:Hs.
    + unfold tick; cbn. destruct (num_ltb _ _); unfold sched_ok; cbn.
      * split; [reflexivity|discriminate].
      * exact I.
    + unfold sched_ok in *. cbn. rewrite Hs. exact I.
  - destruct data as [b|]; cbn; [|assumption].
    destruct (0 <? blob_size b)%N; assumption.
Qed.

Lemma dispatch_chunksRef p e :
  chunksRef (dispatch p e) = (chunksRef p ++ chunk_of e)%list.
Proof.
  destruct e as [now|[b|]]; cbn.
  - rewrite app_nil_r.
    destruct (raf_scheduled p) as [[h d]|]; [|reflexivity].
    unfold tick; cbn. destruct (num_ltb _ _); reflexivity.
  - destruct (0 <? blob_size b)%N; [reflexivity|].
    now rewrite app_nil_r.
  - now rewrite app_nil_r.
Qed.

(** An event adds at most its own non-empty chunk. *)
Lemma dispatch_nonempty p e :
  nonempty_chunks (chunksRef p) -> nonempty_chunks (chunksRef (dispatch p e)).
Proof.
  intros Hp. destruct e as [now|[b|]]; cbn.
  - destruct (raf_scheduled p) as [[h d]|]; [|assumption].
    unfold tick; cbn. destruct (num_ltb _ _); assumption.
  - destruct (0 <? blob_size b)%N eqn:Hb; [|assumption].
    cbn. apply Forall_app. split; [assumption|].
    constructor; [|constructor]. now apply N.ltb_lt.
  - assumption.
Qed.

Lemma fold_dispatch_mediaRecorderRef events : forall p,
  mediaRecorderRef (fold_left dispatch events p) = mediaRecorderRef p.
Proof.
  induction events as [|e events IH]; intros p; cbn; [reflexivity|].
  rewrite IH. apply dispatch_mediaRecorderRef.
Qed.

Lemma fold_dispatch_sched_ok events : forall p,
  sched_ok p -> sched_ok (fold_left dispatch events p).
Proof.
  induction events as [|e events IH]; intros p Hp; cbn; [assumption|].
  apply IH, dispatch_sched_ok, Hp.
Qed.

Lemma fold_dispatch_chunksRef events : forall p,
  chunksRef (fold_left dispatch events p)
  = (chunksRef p ++ collected events)%list.
Proof.
  induction events as [|e events IH]; intros p; cbn.
  - now rewrite app_nil_r.
  - rewrite IH, dispatch_chunksRef. now rewrite <- app_assoc.
Qed.

Lemma fold_dispatch_nonempty events : forall p,
  nonempty_chunks (chunksRef p) ->
  nonempty_chunks (chunksRef (fold_left dispatch events p)).
Proof.
  induction events as [|e events IH]; intros p Hp; cbn; [assumption|].
  apply IH, dispatch_nonempty, Hp.
Qed.

Lemma collected_nonempty events : nonempty_chunks (collected events).
Proof.
  induction events as [|e events IH]; cbn; [constructor|].
  apply Forall_app. split; [|exact IH].
  destruct e as [now|[b|]]; cbn; try constructor.
  destruct (0 <? blob_size b)%N eqn:Hb; constructor; [|constructor].
  now apply N.ltb_lt.
Qed.










End Animation.

Create Rewrite HintDb page_proj.
#[local] Hint Rewrite
  cancel_if_rafRef_state cancel_if_rafRef_canvasRef cancel_if_rafRef_rafRef
  cancel_if_rafRef_mediaRecorderRef cancel_if_rafRef_chunksRef
  fold_dispatch_mediaRecorderRef : page_proj.

(** Read a field of a page through the steps that built the page. *)
Ltac page_simpl := repeat progress (cbn; autorewrite with page_proj).

(** Find an element in an explicit list. *)
Ltac in_list := vm_compute; repeat (first [left; reflexivity | right]).

(** ** Lemmas on numbers and strings *)

Section Numbers.

Local Open Scope Q_scope.

Lemma inject_Z_nonneg n : (0 <= n)%Z -> 0 <= inject_Z n.
Proof. intros H. unfold Qle. cbn. lia. Qed.

Lemma pow2_pos e : 0 < pow2 e.
Proof. apply Qpower_0_lt. reflexivity. Qed.

Lemma pow2_le e1 e2 : (e1 <= e2)%Z -> pow2 e1 <= pow2 e2.
Proof. intros H. apply Qpower_le_compat_l; [exact H|discriminate]. Qed.

Lemma pow2_lt_inv e1 e2 : pow2 e1 < pow2 e2 -> (e1 < e2)%Z.
Proof. intros H. apply (Qpower_lt_compat_l_inv 2); [exact H|reflexivity]. Qed.

Lemma pow2_int e : (0 <= e)%Z -> pow2 e == inject_Z (2 ^ e).
Proof. intros H. unfold pow2. now rewrite Zpower_Qpower. Qed.

Lemma pow2_cancel e : pow2 (- e) * pow2 e == 1.
Proof.
  unfold pow2. rewrite Qpower_opp, Qmult_comm. apply Qmult_inv_r.
  apply Qpower_not_0. discriminate.
Qed.

Lemma nearest_even_le x n : x <= inject_Z n -> (nearest_even x <= n)%Z.
Proof.
  intros Hx. unfold nearest_even.
  assert (Hf : (Qfloor x <= n)%Z).
  { rewrite <- (Qfloor_Z n). now apply Qfloor_resp_le. }
  assert (Hstep : 0 < x - inject_Z (Qfloor x) -> (Qfloor x + 1 <= n)%Z).
  { intros Hpos. apply Z.le_succ_l. apply Z.le_neq. split; [exact Hf|].
    intros Heq. rewrite Heq in Hpos. lra. }
  destruct (Qcompare_spec (x - inject_Z (Qfloor x)) (1 # 2)) as [He|Hl|Hg].
  - destruct (Z.even (Qfloor x)); [exact Hf|]. apply Hstep. lra.
  - exact Hf.
  - apply Hstep. lra.
Qed.

Lemma nearest_even_ge x n : inject_Z n <= x -> (n <= nearest_even x)%Z.
Proof.
  intros Hx. unfold nearest_even.
  assert (Hf : (n <= Qfloor x)%Z).
  { rewrite <- (Qfloor_Z n). now apply Qfloor_resp_le. }
  destruct (x - inject_Z (Qfloor x) ?= 1 # 2);
    [destruct (Z.even (Qfloor x))| |]; lia.
Qed.

Lemma Qlog2_small p d :
  Z.pos p # d < inject_Z (2 ^ 53) -> (Qlog2 (Z.pos p # d) <= 52)%Z.
Proof.
  intros Ha. unfold Qlog2. cbn [Qnum Qden].
  set (k := (Z.log2 (Z.pos p) - Z.log2 (Z.pos d))%Z).
  destruct (Qle_bool (pow2 k) (Z.pos p # d)) eqn:Hk.
  - apply Qle_bool_iff in Hk.
    assert (Hlt : pow2 k < pow2 53).
    { eapply Qle_lt_trans; [exact Hk|]. now rewrite pow2_int by lia. }
    apply pow2_lt_inv in Hlt. lia.
  - assert (Hle : (Z.log2 (Z.pos p) <= Z.log2 (Z.pos d) + 53)%Z).
    { unfold Qlt in Ha. cbn [Qnum Qden inject_Z] in Ha.
      rewrite Z.add_comm, <- (Z.log2_mul_pow2 (Z.pos d) 53) by lia.
      apply Z.log2_le_mono. lia. }
    lia.
Qed.

(** Between two whole numbers below [2^53], rounding stays between them. *)
Lemma round_magnitude_le p d n :
  (n < 2 ^ 53)%Z -> Z.pos p # d <= inject_Z n ->
  round_magnitude (Z.pos p # d) <= inject_Z n.
Proof.
  intros Hn Ha. unfold round_magnitude.
  set (a := Z.pos p # d) in *.
  set (e := Z.max (Qlog2 a - 52) (-1074)).
  assert (He : (e <= 0)%Z).
  { assert (Qlog2 a <= 52)%Z; [|lia].
    apply Qlog2_small. eapply Qle_lt_trans; [exact Ha|].
    rewrite <- Zlt_Qlt. exact Hn. }
  assert (Hm : (nearest_even (a * pow2 (- e)) <= n * 2 ^ (- e))%Z).
  { apply nearest_even_le. rewrite inject_Z_mult, <- pow2_int by lia.
    apply Qmult_le_compat_r; [exact Ha|]. apply Qlt_le_weak, pow2_pos. }
  rewrite Zle_Qle in Hm. rewrite inject_Z_mult, <- pow2_int in Hm by lia.
  apply (Qmult_le_compat_r _ _ (pow2 e)) in Hm;
    [|apply Qlt_le_weak, pow2_pos].
  rewrite <- Qmult_assoc, pow2_cancel, Qmult_1_r in Hm. exact Hm.
Qed.

Lemma round_magnitude_ge p d n :
  Z.pos p # d < inject_Z (2 ^ 53) -> inject_Z n <= Z.pos p # d ->
  inject_Z n <= round_magnitude (Z.pos p # d).
Proof.
  intros Hs Ha. unfold round_magnitude.
  set (a := Z.pos p # d) in *.
  set (e := Z.max (Qlog2 a - 52) (-1074)).
  assert (He : (e <= 0)%Z).
  { assert (Qlog2 a <= 52)%Z; [|lia]. now apply Qlog2_small. }
  assert (Hm : (n * 2 ^ (- e) <= nearest_even (a * pow2 (- e)))%Z).
  { apply nearest_even_ge. rewrite inject_Z_mult, <- pow2_int by lia.
    apply Qmult_le_compat_r; [exact Ha|]. apply Qlt_le_weak, pow2_pos. }
  rewrite Zle_Qle in Hm. rewrite inject_Z_mult, <- pow2_int in Hm by lia.
  apply (Qmult_le_compat_r _ _ (pow2 e)) in Hm;
    [|apply Qlt_le_weak, pow2_pos].
  rewrite <- Qmult_assoc, pow2_cancel, Qmult_1_r in Hm. exact Hm.
Qed.

Lemma round_magnitude_nonneg a : 0 <= a -> 0 <= round_magnitude a.
Proof.
  intros Ha. unfold round_magnitude.
  apply Qmult_le_0_compat; [|apply Qlt_le_weak, pow2_pos].
  apply inject_Z_nonneg.
  apply nearest_even_ge. apply Qmult_le_0_compat; [exact Ha|].
  apply Qlt_le_weak, pow2_pos.
Qed.

Lemma no_overflow v n :
  (n < 2 ^ 53)%Z -> v <= inject_Z n -> Qle_bool (pow2 1024) v = false.
Proof.
  intros Hn Hv. destruct (Qle_bool (pow2 1024) v) eqn:Hb; [|reflexivity].
  apply Qle_bool_iff in Hb. exfalso.
  assert (H1 : pow2 53 <= pow2 1024) by (apply pow2_le; lia).
  rewrite pow2_int in H1 by lia.
  assert (H2 : inject_Z n < inject_Z (2 ^ 53)) by now rewrite <- Zlt_Qlt.
  lra.
Qed.

Lemma round64_not_NaN q : round64 q <> NaN.
Proof.
  unfold round64. destruct (Qnum q); [discriminate| |];
    destruct (Qle_bool _ _); discriminate.
Qed.

(** A whole number below [2^53] that bounds [q] from above bounds the
    double nearest to [q]. *)
Lemma round64_upper q n :
  (0 <= n < 2 ^ 53)%Z -> q <= inject_Z n ->
  match round64 q with
  | Fin w => w <= inject_Z n
  | NegInf => True
  | _ => False
  end.
Proof.
  intros [Hn0 Hn] Hq. destruct q as [[|p|p] d]; unfold round64; cbn [Qnum].
  - now apply inject_Z_nonneg.
  - pose proof (round_magnitude_le p d n Hn Hq) as Hv.
    rewrite (no_overflow _ n Hn Hv). exact Hv.
  - destruct (Qle_bool _ _); [exact I|].
    pose proof (round_magnitude_nonneg (- (Z.neg p # d))) as Hv.
    assert (H0 : 0 <= inject_Z n) by now apply inject_Z_nonneg.
    assert (Hp : 0 <= - (Z.neg p # d)) by discriminate.
    specialize (Hv Hp). lra.
Qed.

Lemma round64_nonneg q :
  0 <= q ->
  match round64 q with
  | Fin w => 0 <= w
  | PosInf => True
  | _ => False
  end.
Proof.
  intros Hq. destruct q as [[|p|p] d]; unfold round64; cbn [Qnum].
  - discriminate.
  - destruct (Qle_bool _ _); [exact I|].
    apply round_magnitude_nonneg. discriminate.
  - exfalso. apply Hq. reflexivity.
Qed.

Lemma round_magnitude_int p :
  (Z.pos p < 2 ^ 53)%Z ->
  round_magnitude (inject_Z (Z.pos p)) == inject_Z (Z.pos p) /\
  Qle_bool (pow2 1024) (round_magnitude (inject_Z (Z.pos p))) = false.
Proof.
  intros Hp.
  assert (Hs : inject_Z (Z.pos p) < inject_Z (2 ^ 53))
    by now rewrite <- Zlt_Qlt.
  pose proof (round_magnitude_le p 1 (Z.pos p) Hp (Qle_refl _)) as Hle.
  pose proof (round_magnitude_ge p 1 (Z.pos p) Hs (Qle_refl _)) as Hge.
  split; [now apply Qle_antisym|].
  exact (no_overflow _ (Z.pos p) Hp Hle).
Qed.

(** Whole numbers up to [2^53] are doubles. *)
Lemma round64_int z :
  (Z.abs z < 2 ^ 53)%Z ->
  exists w, round64 (inject_Z z) = Fin w /\ w == inject_Z z.
Proof.
  intros Hz. destruct z as [|p|p]; unfold round64; cbn [Qnum inject_Z].
  - exists 0. split; reflexivity.
  - destruct (round_magnitude_int p Hz) as [Heq Hno].
    change (Z.pos p # 1) with (inject_Z (Z.pos p)).
    rewrite Hno. eexists. split; [reflexivity|exact Heq].
  - destruct (round_magnitude_int p Hz) as [Heq Hno].
    match goal with
    | |- context [round_magnitude ?x] => change x with (inject_Z (Z.pos p))
    end.
    rewrite Hno. eexists. split; [reflexivity|]. rewrite Heq. reflexivity.
Qed.

Lemma Math_round_not_NaN x : x <> NaN -> Math_round x <> NaN.
Proof. destruct x; cbn [Math_round]; unfold num; congruence. Qed.

Lemma num_mul_1000_not_NaN x : x <> NaN -> num_mul x (num 1000) <> NaN.
Proof.
  destruct x as [| | |q]; cbn [num_mul num]; try congruence;
    intros _; try discriminate.
  apply round64_not_NaN.
Qed.

Lemma Math_max_lower_bound y :
  y <> NaN -> num_le (num 1000) (Math_max (num 1000) y).
Proof.
  intros Hy. destruct y as [| | |w]; cbn.
  - congruence.
  - apply Qle_refl.
  - exact I.
  - destruct (Qle_bool _ _) eqn:Hle; cbn.
    + now apply Qle_bool_iff.
    + apply Qle_refl.
Qed.

Lemma durationMs_of_lower_bound x :
  x <> NaN -> num_le (num 1000) (durationMs_of x).
Proof.
  intros Hx. unfold durationMs_of.
  now apply Math_max_lower_bound, Math_round_not_NaN, num_mul_1000_not_NaN.
Qed.

Lemma Qfloor_half (z : Z) : Qfloor (inject_Z z + (1 # 2)) = z.
Proof.
  unfold Qfloor, Qplus, inject_Z. cbn.
  symmetry. apply Z.div_unique with (r := 1%Z); lia.
Qed.

(** [Math.max(1000, z)] for whole numbers. *)
Lemma Math_max_floor (z : Z) :
  (z <= 1000)%Z -> Math_max (num 1000) (num z) = num 1000.
Proof.
  intros Hz. unfold Math_max, num.
  destruct (Qle_bool (inject_Z 1000) (inject_Z z)) eqn:Hle; [|reflexivity].
  apply Qle_bool_iff in Hle. rewrite <- Zle_Qle in Hle.
  replace z with 1000%Z by lia. reflexivity.
Qed.

Lemma Math_max_above (z : Z) :
  (1000 <= z)%Z -> Math_max (num 1000) (num z) = num z.
Proof.
  intros Hz. unfold Math_max, num.
  destruct (Qle_bool (inject_Z 1000) (inject_Z z)) eqn:Hle; [reflexivity|].
  rewrite Zle_Qle in Hz. apply Qle_bool_iff in Hz. congruence.
Qed.

(** A whole number of seconds, one at least, whose milliseconds a double
    holds exactly, is used as it is. *)
Lemma durationMs_of_whole_seconds (n : Z) :
  (1 <= n)%Z -> (n * 1000 < 2 ^ 53)%Z ->
  durationMs_of (num n) = num (n * 1000).
Proof.
  intros Hn Hbig. unfold durationMs_of. cbn [num_mul num].
  change (inject_Z n * inject_Z 1000)%Q with (inject_Z (n * 1000)).
  destruct (round64_int (n * 1000)) as (w & Hw & Heq); [lia|].
  rewrite Hw. cbn [Math_round].
  rewrite Heq, Qfloor_half. apply Math_max_above. lia.
Qed.

(** A request of a second or less is raised to 1000 ms. *)
Lemma durationMs_of_short (q : Q) :
  (q <= 1)%Q -> durationMs_of (Fin q) = num 1000.
Proof.
  intros Hq. unfold durationMs_of. cbn [num_mul num].
  assert (Hprod : (q * inject_Z 1000 <= inject_Z 1000)%Q).
  { rewrite <- (Qmult_1_l (inject_Z 1000)) at 2.
    apply Qmult_le_compat_r; [exact Hq|discriminate]. }
  pose proof (round64_upper _ 1000 ltac:(lia) Hprod) as Hup.
  destruct (round64 (q * inject_Z 1000)) as [| | |w]; try contradiction.
  - reflexivity.
  - cbn [Math_round]. apply Math_max_floor.
    rewrite <- (Qfloor_half 1000). apply Qfloor_resp_le. lra.
Qed.

End Numbers.

Section Strings.

Lemma length_app (a b : string) :
  String.length (a ++ b) = (String.length a + String.length b)%nat.
Proof. induction a as [|c a IH]; cbn; [reflexivity|now rewrite IH]. Qed.

Lemma substring_whole (b : string) : substring 0 (String.length b) b = b.
Proof. induction b as [|c b IH]; cbn; [reflexivity|now rewrite IH]. Qed.

Lemma substring_skip (a b : string) :
  substring (String.length a) (String.length b) (a ++ b) = b.
Proof. induction a as [|c a IH]; cbn; [apply substring_whole|exact IH]. Qed.

Lemma endsWith_app (a b : string) : endsWith (a ++ b) b = true.
Proof.
  unfold endsWith. rewrite length_app.
  replace (String.length a + String.length b - String.length b)%nat
    with (String.length a) by lia.
  rewrite substring_skip, String.eqb_refl, andb_true_r.
  apply Nat.leb_le. lia.
Qed.

Lemma fileName_of_endsWith iso : endsWith (fileName_of iso) ".webm" = true.
Proof.
  unfold fileName_of.
  replace ("youtube-720p-" ++ replaceAll "." "-" (replaceAll ":" "-" iso) ++ ".webm")
    with (("youtube-720p-" ++ replaceAll "." "-" (replaceAll ":" "-" iso)) ++ ".webm").
  - apply endsWith_app.
  - generalize (replaceAll "." "-" (replaceAll ":" "-" iso)).
    intros s. reflexivity.
Qed.

End Strings.

(** ** Lemmas on the runs of the record handler *)

Section HandlerRuns.

Variables (B : Browser) (inp : Inputs) (R : Run) (p : Page).

Lemma handleRecord_bitrates b :
  In b (recorder_bitrates (effects (handleRecord B inp R p))) ->
  b = 4000000%Z.
Proof.
  run_handler B R p; intros H; in_cases H; symmetry; exact H.
Qed.

Lemma handleRecord_durations d :
  In (Eff_start d) (effects (handleRecord B inp R p))
  \/ In (Eff_setTimeout d) (effects (handleRecord B inp R p)) ->
  d = durationMs_of (durationSec inp).
Proof.
  run_handler B R p; intros [H|H]; in_cases H; inversion H; reflexivity.
Qed.

(** A run that ends in the done state made the calls of a run in which
    nothing fails, in that order, and no other. *)
Lemma handleRecord_done_calls url size fileName d :
  state (page (handleRecord B inp R p)) = done url size fileName d ->
  exists mime,
    supported B = Some mime /\
    effects (handleRecord B inp R p)
    = successful_calls inp R mime (clock p).
Proof.
  run_handler B R p; intros H; try discriminate H.
  exists mime. split; [reflexivity|].
  page_simpl.
  rewrite fold_dispatch_chunksRef.
  page_simpl. reflexivity.
Qed.

End HandlerRuns.

(** * The properties *)

(** ** Frame rate and bitrate *)

(** C1, as amended: the recording session captures the canvas at the frame
    rate selected in the form, and encodes at the fixed bitrate of
    4,000,000 bits per second; every produced file comes from such a
    session. *)
Theorem record_uses_selected_fps_and_fixed_bitrate
    (B : Browser) (inp : Inputs) (R : Run) (p : Page) :
  (forall c f, In (Eff_captureStream c f) (effects (handleRecord B inp R p)) ->
     f = fps inp) /\
  (forall r, In (Eff_new_MediaRecorder r) (effects (handleRecord B inp R p)) ->
     frameRequestRate (rec_stream r) = fps inp /\
     videoBitsPerSecond r = 4000000%Z) /\
  (forall url size fileName d,
     state (page (handleRecord B inp R p)) = done url size fileName d ->
     exists r, In (Eff_new_MediaRecorder r) (effects (handleRecord B inp R p))).
Proof.
  repeat split.
  - intros c f.
    run_handler B R p; intros H; in_cases H; inversion H; reflexivity.
  - revert H.
    run_handler B R p; intros H; in_cases H; inversion H; reflexivity.
  - revert H.
    run_handler B R p; intros H; in_cases H; inversion H; reflexivity.
  - intros url size fileName d.
    run_handler B R p; intros H; try discriminate H.
    eexists. cbn. right. left. reflexivity.
Qed.

(** The sample run records at the 30 fps of its form, at 4,000,000 bps. *)
Lemma record_uses_selected_fps_witness :
  exists r,
    In (Eff_new_MediaRecorder r)
       (effects (handleRecord chrome sample_inputs sample_run (mount true))) /\
    frameRequestRate (rec_stream r) = num 30 /\
    videoBitsPerSecond r = 4000000%Z.
Proof.
  destruct (record_uses_selected_fps_and_fixed_bitrate
              chrome sample_inputs sample_run (mount true))
    as (_ & Hrec & Hdone).
  destruct (Hdone _ _ _ _ eq_refl) as [r Hr].
  exists r. split; [exact Hr|]. exact (Hrec r Hr).
Defined.

(** C1, as stated, fails: whatever the form holds, the bitrate of the
    recorder is the same, so it is not configurable. *)
Lemma bitrate_is_not_configurable : ~ bitrate_configurable.
Proof.
  intros (B & R & p & inp1 & inp2 & b1 & b2 & H1 & H2 & Hne).
  apply handleRecord_bitrates in H1. apply handleRecord_bitrates in H2.
  congruence.
Qed.

(** ** The duration *)

(** C2, as amended: for every duration typed in the form that is a number,
    the duration the animation and the stop timer are started with is
    [max(1000, round(durationSec * 1000))], so at least 1000 ms.  No upper
    bound is applied. *)
Theorem duration_is_clamped_from_below
    (B : Browser) (inp : Inputs) (R : Run) (p : Page) (d : number) :
  durationSec inp <> NaN ->
  In (Eff_start d) (effects (handleRecord B inp R p))
  \/ In (Eff_setTimeout d) (effects (handleRecord B inp R p)) ->
  d = durationMs_of (durationSec inp) /\ num_le (num 1000) d.
Proof.
  intros Hnum Hd. apply handleRecord_durations in Hd. subst d.
  split; [reflexivity|]. now apply durationMs_of_lower_bound.
Qed.

(** One second in the form: the animation is started with 1000 ms. *)
Lemma duration_is_clamped_witness :
  num 1000 = durationMs_of (durationSec short_inputs) /\
  num_le (num 1000) (num 1000).
Proof.
  apply (duration_is_clamped_from_below chrome short_inputs sample_run
           (mount true) (num 1000)).
  - discriminate.
  - left. in_list.
Defined.

(** C2, as stated, fails: with 100 seconds in the form the animation and the
    timer are started with 100,000 ms, above the 60 s the input announces;
    with 1 second they are started with 1000 ms, below its 2 s. *)
Lemma duration_leaves_input_range :
  In (Eff_start (num 100000))
     (effects (handleRecord chrome long_inputs sample_run (mount true))) /\
  In (Eff_setTimeout (num 100000))
     (effects (handleRecord chrome long_inputs sample_run (mount true))) /\
  ~ within_input_range (num 100000) /\
  In (Eff_start (num 1000))
     (effects (handleRecord chrome short_inputs sample_run (mount true))) /\
  ~ within_input_range (num 1000).
Proof.
  repeat split; try in_list.
  - intros [_ H]. vm_compute in H. apply H. reflexivity.
  - intros [H _]. vm_compute in H. apply H. reflexivity.
Qed.

(** ** Failures *)

(** C3: the record handler never ends by raising; an unsupported recording
    format, a canvas without [captureStream], and any exception raised in
    the body of the handler each leave the UI state in its error case,
    carrying a message. *)
Theorem handleRecord_surfaces_failures
    (B : Browser) (inp : Inputs) (R : Run) (p : Page) :
  completion (handleRecord B inp R p) = Normal tt /\
  (supported B = None ->
     state (page (handleRecord B inp R p))
     = error "MediaRecorder not supported in this browser.") /\
  (forall mime c, supported B = Some mime -> canvasRef p = Some c ->
     has_captureStream c = false ->
     state (page (handleRecord B inp R p))
     = error "Canvas captureStream not supported.") /\
  (forall err, completion (handleRecord_body B inp R p) = Throw err ->
     state (page (handleRecord B inp R p)) = error (message_of err)).
Proof.
  repeat split;
    [ | intros Hs | intros mime' c' Hs Hc' Hcap' | intros err ];
    run_handler B R p; try reflexivity; try congruence;
    intros H; inversion H; reflexivity.
Qed.

(** The recorder constructor rejects its options: the state is the error
    case with the message of the exception. *)
Lemma handleRecord_surfaces_failures_witness :
  state (page (handleRecord chrome sample_inputs failing_run (mount true)))
  = error "NotSupportedError".
Proof.
  destruct (handleRecord_surfaces_failures
              chrome sample_inputs failing_run (mount true))
    as (_ & _ & _ & Hthrow).
  exact (Hthrow (thrown_object (Some "NotSupportedError")) eq_refl).
Defined.

(** ** Resolution *)

(** C4: whatever size the canvas had, every capture of a recording is taken
    from a canvas of exactly 1280 by 720, every recorder records such a
    stream, and every produced file comes from such a capture. *)
Theorem capture_is_1280_by_720
    (B : Browser) (inp : Inputs) (R : Run) (p : Page) :
  (forall c f, In (Eff_captureStream c f) (effects (handleRecord B inp R p)) ->
     width c = 1280%Z /\ height c = 720%Z) /\
  (forall r, In (Eff_new_MediaRecorder r) (effects (handleRecord B inp R p)) ->
     stream_width (rec_stream r) = 1280%Z /\
     stream_height (rec_stream r) = 720%Z) /\
  (forall url size fileName d,
     state (page (handleRecord B inp R p)) = done url size fileName d ->
     exists c f, In (Eff_captureStream c f) (effects (handleRecord B inp R p))).
Proof.
  repeat split.
  - revert H.
    run_handler B R p; intros H; in_cases H; inversion H; reflexivity.
  - revert H.
    run_handler B R p; intros H; in_cases H; inversion H; reflexivity.
  - revert H.
    run_handler B R p; intros H; in_cases H; inversion H; reflexivity.
  - revert H.
    run_handler B R p; intros H; in_cases H; inversion H; reflexivity.
  - intros url size fileName d.
    run_handler B R p; intros H; try discriminate H.
    do 2 eexists. cbn. left. reflexivity.
Qed.

(** A canvas of 300 by 150 is captured at 1280 by 720. *)
Lemma capture_is_1280_by_720_witness :
  exists c f,
    In (Eff_captureStream c f)
       (effects (handleRecord chrome sample_inputs sample_run
                   small_canvas_page)) /\
    width c = 1280%Z /\ height c = 720%Z.
Proof.
  destruct (capture_is_1280_by_720
              chrome sample_inputs sample_run small_canvas_page)
    as (Hcap & _ & Hdone).
  destruct (Hdone _ _ _ _ eq_refl) as (c & f & Hc).
  exists c, f. split; [exact Hc|]. exact (Hcap c f Hc).
Defined.

(** ** Stopping and assembling *)

(** C5: in a run that ends in the done state, once the timer has elapsed
    the recorder is stopped and the animation loop is stopped, neither
    having been stopped before; only then the blob is built from the chunks
    accumulated during the wait, and its URL and its size are the ones of
    the done state.  At the end no animation callback is pending and the
    recorder is inactive. *)
Theorem stop_precedes_assembly
    (B : Browser) (inp : Inputs) (R : Run) (p : Page)
    (url : string) (size : N) (fileName : string) (d : number) :
  state (page (handleRecord B inp R p)) = done url size fileName d ->
  exists before mime,
    effects (handleRecord B inp R p)
    = (before ++
       [Eff_timer_elapsed d; Eff_recorder_stop; Eff_stop;
        Eff_setState processing;
        Eff_new_Blob (collected (during R)) mime;
        Eff_createObjectURL (new_Blob_of (collected (during R)) mime);
        Eff_setState (done url size fileName d)])%list /\
    ~ In Eff_recorder_stop before /\
    ~ In Eff_stop before /\
    url = createObjectURL R (new_Blob_of (collected (during R)) mime) /\
    size = blob_size (new_Blob_of (collected (during R)) mime) /\
    raf_scheduled (page (handleRecord B inp R p)) = None /\
    rafRef (page (handleRecord B inp R p)) = None /\
    option_map rec_state (mediaRecorderRef (page (handleRecord B inp R p)))
    = Some rs_inactive.
Proof.
  run_handler B R p; intros H; try discriminate H.
  inversion H; subst; clear H.
  match goal with
  | |- context [fold_left dispatch (during R) ?X] => set (recording_page := X)
  end.
  assert (Hchunks : chunksRef (fold_left dispatch (during R) recording_page)
                    = collected (during R)).
  { rewrite fold_dispatch_chunksRef.
    subst recording_page. page_simpl. reflexivity. }
  page_simpl. rewrite Hchunks.
  eexists [_; _; _; _; _; _], mime.
  repeat split.
  - intros Hin. in_cases Hin.
  - intros Hin. in_cases Hin.
  - apply cancel_if_rafRef_clears. unfold sched_ok. cbn.
    change (sched_ok (fold_left dispatch (during R) recording_page)).
    apply fold_dispatch_sched_ok.
    subst recording_page. unfold sched_ok. cbn.
    split; [reflexivity|discriminate].
Qed.

(** The sample run: the animation loop is stopped at the end, and the
    recorder is inactive. *)
Lemma stop_precedes_assembly_witness :
  raf_scheduled (page (handleRecord chrome sample_inputs sample_run
                         (mount true))) = None /\
  option_map rec_state
    (mediaRecorderRef (page (handleRecord chrome sample_inputs sample_run
                               (mount true))))
  = Some rs_inactive.
Proof.
  destruct (stop_precedes_assembly chrome sample_inputs sample_run
              (mount true) _ _ _ _ eq_refl)
    as (before & mime & _ & _ & _ & _ & _ & Hraf & _ & Hrec).
  split; [exact Hraf|exact Hrec].
Defined.




(** ** The UI states *)

(** C7, as amended: the UI state has exactly five cases, idle, recording,
    processing, done and error, with the fields url, size, file name,
    duration and message; every run of the record handler sets the states
    in the order recording, processing, done, cut short by error at any
    point; started in the idle state, every transition of the run moves
    forward along idle, recording, processing, done/error. *)
Theorem handler_states_are_linear
    (B : Browser) (inp : Inputs) (R : Run) (p : Page) :
  (forall s : RecordingState,
     s = idle \/ (exists t, s = recording t) \/ s = processing
     \/ (exists url size fileName d, s = done url size fileName d)
     \/ (exists m, s = error m)) /\
  ((exists m, states_set (effects (handleRecord B inp R p)) = [error m])
   \/ (exists t m,
         states_set (effects (handleRecord B inp R p))
         = [recording t; error m])
   \/ (exists t m,
         states_set (effects (handleRecord B inp R p))
         = [recording t; processing; error m])
   \/ (exists t url size fileName d,
         states_set (effects (handleRecord B inp R p))
         = [recording t; processing; done url size fileName d])) /\
  (state p = idle ->
     moves_forward (state p) (states_set (effects (handleRecord B inp R p)))).
Proof.
  split; [|split].
  - intros [|t| |url size fileName d|m]; eauto 10.
  - run_handler B R p;
      first [ left; eexists; reflexivity
            | right; left; do 2 eexists; reflexivity
            | right; right; left; do 2 eexists; reflexivity
            | right; right; right; do 5 eexists; reflexivity ].
  - intros Hidle. rewrite Hidle.
    run_handler B R p; cbn; repeat split; lia.
Qed.

(** From the freshly mounted page the sample run moves forward only. *)
Lemma handler_states_are_linear_witness :
  moves_forward idle
    (states_set (effects (handleRecord chrome sample_inputs sample_run
                            (mount true)))).
Proof.
  destruct (handler_states_are_linear chrome sample_inputs sample_run
              (mount true))
    as (_ & _ & Hforward).
  exact (Hforward eq_refl).
Defined.

(** C7, as stated, fails: after a recording the state is done, the record
    button is enabled, and a click on it moves the state from done back to
    recording. *)
Lemma rerecord_leaves_done_state :
  status (state recorded_page) = "done" /\
  disabled (state recorded_page) = false /\
  (exists t rest,
     states_set (effects (handleRecord chrome sample_inputs sample_run
                            recorded_page))
     = recording t :: rest) /\
  ~ moves_forward (state recorded_page)
      (states_set (effects (handleRecord chrome sample_inputs sample_run
                              recorded_page))).
Proof.
  split; [reflexivity|]. split; [reflexivity|]. split.
  - do 2 eexists. vm_compute. reflexivity.
  - intros H. vm_compute in H. destruct H as [H _]. lia.
Qed.

(** ** The download *)

(** C8: in the done state the file name is made of the current date-time
    as an ISO string, its colons and dots replaced by dashes, between
    ["youtube-720p-"] and [".webm"]; it ends in [".webm"]; and the download
    link of the view carries exactly that file name, next to the URL of the
    state. *)
Theorem download_uses_timestamp_fileName
    (B : Browser) (inp : Inputs) (R : Run) (p : Page)
    (url : string) (size : N) (fileName : string) (d : number) :
  state (page (handleRecord B inp R p)) = done url size fileName d ->
  fileName
  = "youtube-720p-"
    ++ replaceAll "." "-" (replaceAll ":" "-" (toISOString R)) ++ ".webm" /\
  endsWith fileName ".webm" = true /\
  download_link (state (page (handleRecord B inp R p)))
  = Some {| href := url; download := fileName |}.
Proof.
  intros Hdone.
  assert (Hname : fileName = fileName_of (toISOString R)).
  { revert Hdone.
    run_handler B R p; intros H; try discriminate H.
    inversion H; reflexivity. }
  split; [exact Hname|]. split.
  - rewrite Hname. apply fileName_of_endsWith.
  - rewrite Hdone. reflexivity.
Qed.

(** The sample run, started on 2024-05-06 at 07:08:09.123 UTC. *)
Lemma download_uses_timestamp_fileName_witness :
  endsWith "youtube-720p-2024-05-06T07-08-09-123Z.webm" ".webm" = true /\
  download_link (state (page (handleRecord chrome sample_inputs sample_run
                                (mount true))))
  = Some {| href := "blob:https://example/1";
            download := "youtube-720p-2024-05-06T07-08-09-123Z.webm" |}.
Proof.
  destruct (download_uses_timestamp_fileName chrome sample_inputs sample_run
              (mount true) _ _ _ _ eq_refl)
    as (_ & Hends & Hlink).
  split; [exact Hends|exact Hlink].
Defined.

(** ** The MIME type *)

(** C9: in a browser, and wherever else [MediaRecorder] exists only
    together with [window] (a server render has neither), the selected type
    is the VP9 type if it is supported, else the VP8 type if it is
    supported, else plain WebM if it is supported, and it is [null] exactly
    when none of the three is supported or [MediaRecorder] is absent. *)
Theorem supported_follows_preference_order (B : Browser) :
  (has_window B = false -> MediaRecorder_isTypeSupported B = None) ->
  (forall isTypeSupported,
     MediaRecorder_isTypeSupported B = Some isTypeSupported ->
     (isTypeSupported "video/webm;codecs=vp9,opus" = true ->
        supported B = Some "video/webm;codecs=vp9,opus") /\
     (isTypeSupported "video/webm;codecs=vp9,opus" = false ->
      isTypeSupported "video/webm;codecs=vp8,opus" = true ->
        supported B = Some "video/webm;codecs=vp8,opus") /\
     (isTypeSupported "video/webm;codecs=vp9,opus" = false ->
      isTypeSupported "video/webm;codecs=vp8,opus" = false ->
      isTypeSupported "video/webm" = true ->
        supported B = Some "video/webm")) /\
  (supported B = None <-> none_supported B).
Proof.
  intros Hwin. unfold supported, none_supported.
  destruct (has_window B) eqn:Hw; cbn.
  - destruct (MediaRecorder_isTypeSupported B) as [f|].
    + split.
      * intros g Hg. injection Hg as <-.
        repeat split; intros; repeat
          match goal with H : f _ = _ |- _ => rewrite H; clear H end;
          reflexivity.
      * destruct (f "video/webm;codecs=vp9,opus");
          [split; [discriminate|intros (H & _); discriminate]|].
        destruct (f "video/webm;codecs=vp8,opus");
          [split; [discriminate|intros (_ & H & _); discriminate]|].
        destruct (f "video/webm");
          [split; [discriminate|intros (_ & _ & H); discriminate]|].
        split; auto.
    + split; [discriminate|]. split; auto.
  - rewrite (Hwin eq_refl). split; [discriminate|]. split; auto.
Qed.

(** A browser that supports the three types records VP9; one that knows
    VP8 only records VP8. *)
Lemma supported_follows_preference_order_witness :
  supported chrome = Some "video/webm;codecs=vp9,opus" /\
  supported vp8_only = Some "video/webm;codecs=vp8,opus".
Proof.
  split.
  - destruct (supported_follows_preference_order chrome) as [Hpref _].
    + discriminate.
    + destruct (Hpref (fun _ => true) eq_refl) as [Hvp9 _].
      exact (Hvp9 eq_refl).
  - destruct (supported_follows_preference_order vp8_only) as [Hpref _].
    + discriminate.
    + destruct (Hpref _ eq_refl) as (_ & Hvp8 & _).
      exact (Hvp8 eq_refl eq_refl).
Defined.

(** ** The chunk buffer *)

Section ChunkBuffer.

Variable B : Browser.

Lemma ondataavailable_adds data p b :
  In b (chunksRef (ondataavailable data p)) ->
  In b (chunksRef p) \/ (data = Some b /\ (0 < blob_size b)%N).
Proof.
  unfold ondataavailable. destruct data as [b'|]; [|now left].
  destruct (0 <? blob_size b')%N eqn:Hb; [|now left].
  cbn. intros Hin. apply in_app_or in Hin as [Hin|[->|[]]].
  - now left.
  - right. split; [reflexivity|]. now apply N.ltb_lt.
Qed.

Lemma reset_empties R p : chunksRef (page (reset R p)) = [].
Proof.
  unfold_ops. cbn.
  destruct (mediaRecorderRef p); cbn; [|reflexivity].
  case_throws R; reflexivity.
Qed.

Lemma reset_builds_no_blob R p parts type :
  ~ In (Eff_new_Blob parts type) (effects (reset R p)).
Proof.
  unfold_ops. cbn.
  destruct (mediaRecorderRef p); cbn; [case_throws R|];
    intros H; in_cases H.
Qed.

(** The buffer is emptied before the recorder exists, so a blob is built
    from the chunks of this recording only. *)
Lemma handleRecord_blob_parts inp R p parts type :
  In (Eff_new_Blob parts type) (effects (handleRecord B inp R p)) ->
  parts = collected (during R).
Proof.
  run_handler B R p; intros H; in_cases H; inversion H; subst;
    page_simpl;
    (rewrite fold_dispatch_chunksRef);
    page_simpl; reflexivity.
Qed.

Lemma handleRecord_keeps_nonempty inp R p :
  nonempty_chunks (chunksRef p) ->
  nonempty_chunks (chunksRef (page (handleRecord B inp R p))).
Proof.
  intros Hp.
  run_handler B R p; page_simpl;
    first [ assumption
          | constructor
          | apply fold_dispatch_nonempty; page_simpl; constructor ].
Qed.

Lemma perform_keeps_nonempty a p :
  nonempty_chunks (chunksRef p) ->
  nonempty_chunks (chunksRef (page (perform B a p))) /\
  (forall parts type,
     In (Eff_new_Blob parts type) (effects (perform B a p)) ->
     nonempty_chunks parts).
Proof.
  intros Hp. destruct a as [inp R|R|e]; unfold perform.
  - destruct (disabled (state p)).
    + split; [assumption|]. intros parts type [].
    + split; [now apply handleRecord_keeps_nonempty|].
      intros parts type Hin. apply handleRecord_blob_parts in Hin.
      subst parts. apply collected_nonempty.
  - destruct (_ || _).
    + split; [assumption|]. intros parts type [].
    + split; [rewrite reset_empties; constructor|].
      intros parts type Hin. now apply reset_builds_no_blob in Hin.
  - split; [now apply dispatch_nonempty|]. intros parts type [].
Qed.

Lemma session_keeps_nonempty acts : forall p,
  nonempty_chunks (chunksRef p) ->
  nonempty_chunks (chunksRef (fst (session B acts p))) /\
  (forall parts type,
     In (Eff_new_Blob parts type) (snd (session B acts p)) ->
     nonempty_chunks parts).
Proof.
  induction acts as [|a acts IH]; intros p Hp; cbn.
  - split; [assumption|]. intros parts type [].
  - destruct (perform_keeps_nonempty a p Hp) as [Hpage Hblobs].
    destruct (IH _ Hpage) as [IHpage IHblobs].
    destruct (session B acts (page (perform B a p))) as [p' l]. cbn in *.
    split; [assumption|].
    intros parts type Hin. apply in_app_or in Hin as [Hin|Hin]; eauto.
Qed.

End ChunkBuffer.

(** C10: the data-available handler appends a chunk only when its size is
    above zero; [reset] empties the buffer, and each recording starts from
    an empty buffer, its blob being built from the chunks of that recording
    alone; so, whatever the user and the browser do with a mounted page, the
    buffer never holds an empty chunk and every blob is built from non-empty
    chunks only. *)
Theorem chunk_buffer_holds_no_empty_chunk
    (B : Browser) (canvas_can_capture : bool) (acts : list Action) :
  (forall data p b,
     In b (chunksRef (ondataavailable data p)) ->
     In b (chunksRef p) \/ (data = Some b /\ (0 < blob_size b)%N)) /\
  (forall R p, chunksRef (page (reset R p)) = []) /\
  (forall inp R p parts type,
     In (Eff_new_Blob parts type) (effects (handleRecord B inp R p)) ->
     parts = collected (during R)) /\
  nonempty_chunks
    (chunksRef (fst (session B acts (mount canvas_can_capture)))) /\
  (forall parts type,
     In (Eff_new_Blob parts type)
        (snd (session B acts (mount canvas_can_capture))) ->
     nonempty_chunks parts).
Proof.
  split; [exact ondataavailable_adds|].
  split; [exact reset_empties|].
  split; [exact (handleRecord_blob_parts B)|].
  apply session_keeps_nonempty. constructor.
Qed.

(** A session of two recordings with a reset in between: the empty chunk
    and the absent one that the browser delivers are not in the blobs. *)
Lemma chunk_buffer_holds_no_empty_chunk_witness :
  nonempty_chunks [chunk2; chunk2] /\
  In (Eff_new_Blob [chunk2; chunk2] "video/webm;codecs=vp9,opus")
     (snd (session chrome
             [click_record sample_inputs sample_run;
              deliver (ev_dataavailable (Some chunk0));
              click_reset sample_run;
              click_record long_inputs sample_run]
             (mount true))).
Proof.
  assert (Hin : In (Eff_new_Blob [chunk2; chunk2] "video/webm;codecs=vp9,opus")
                   (snd (session chrome
                           [click_record sample_inputs sample_run;
                            deliver (ev_dataavailable (Some chunk0));
                            click_reset sample_run;
                            click_record long_inputs sample_run]
                           (mount true)))) by in_list.
  split; [|exact Hin].
  destruct (chunk_buffer_holds_no_empty_chunk chrome true
              [click_record sample_inputs sample_run;
               deliver (ev_dataavailable (Some chunk0));
               click_reset sample_run;
               click_record long_inputs sample_run])
    as (_ & _ & _ & _ & Hblobs).
  exact (Hblobs _ _ Hin).
Defined.

(** * More properties of the page *)

(** X1: every run of the record handler ends in the done state or in the
    error state; it ends in done exactly when a recording format is
    supported, the canvas is mounted and can capture, and no call into the
    browser raises, and in error exactly when one of these fails. *)
Theorem handleRecord_ends_done_or_error
    (B : Browser) (inp : Inputs) (R : Run) (p : Page) :
  ((exists url size fileName d,
      state (page (handleRecord B inp R p)) = done url size fileName d)
   <-> nothing_fails B R p) /\
  ((exists m, state (page (handleRecord B inp R p)) = error m)
   <-> ~ nothing_fails B R p).
Proof.
  unfold nothing_fails. split; split.
  - run_handler B R p; intros (url & size & fileName & d & H);
      try discriminate H.
    split; [congruence|]. split; [eauto|].
    intros []; assumption.
  - intros (Hs & (c0 & Hc0 & Hcap0) & Hno).
    run_handler B R p;
      try congruence;
      try (rewrite Hno in *; discriminate).
    do 4 eexists. reflexivity.
  - run_handler B R p; intros (m & H) (Hs & (c0 & Hc0 & Hcap0) & Hno);
      try discriminate H; try congruence.
  - intros Hnot.
    run_handler B R p; try (eexists; reflexivity).
    exfalso. apply Hnot.
    split; [congruence|]. split; [eauto|].
    intros []; assumption.
Qed.

Section MimeType.

Lemma supported_is_supported (B : Browser) (m : string) :
  supported B = Some m ->
  exists isTypeSupported,
    MediaRecorder_isTypeSupported B = Some isTypeSupported /\
    isTypeSupported m = true.
Proof.
  unfold supported.
  destruct (has_window B); cbn; [|discriminate].
  destruct (MediaRecorder_isTypeSupported B) as [f|]; [|discriminate].
  destruct (f "video/webm;codecs=vp9,opus") eqn:H9.
  { intros H; injection H as <-. eauto. }
  destruct (f "video/webm;codecs=vp8,opus") eqn:H8.
  { intros H; injection H as <-. eauto. }
  destruct (f "video/webm") eqn:Hw; [|discriminate].
  intros H; injection H as <-. eauto.
Qed.

End MimeType.

(** X2: the selected MIME type is one of the three WebM types and one the
    browser reports as supported; every recorder the handler creates is
    given a type the browser supports, and every blob it builds, and hands
    to [URL.createObjectURL], carries the selected type. *)
Theorem recorder_and_blob_carry_supported_type
    (B : Browser) (inp : Inputs) (R : Run) (p : Page) :
  (forall m, supported B = Some m ->
     In m ["video/webm;codecs=vp9,opus"; "video/webm;codecs=vp8,opus";
           "video/webm"] /\
     exists isTypeSupported,
       MediaRecorder_isTypeSupported B = Some isTypeSupported /\
       isTypeSupported m = true) /\
  (forall r, In (Eff_new_MediaRecorder r) (effects (handleRecord B inp R p)) ->
     exists isTypeSupported,
       MediaRecorder_isTypeSupported B = Some isTypeSupported /\
       isTypeSupported (mimeType r) = true) /\
  (forall parts type,
     In (Eff_new_Blob parts type) (effects (handleRecord B inp R p)) ->
     supported B = Some type) /\
  (forall b, In (Eff_createObjectURL b) (effects (handleRecord B inp R p)) ->
     supported B = Some (blob_type b)).
Proof.
  split; [|split; [|split]].
  - intros m Hm. split; [|now apply supported_is_supported].
    revert Hm. unfold supported.
    destruct (has_window B); cbn; [|discriminate].
    destruct (MediaRecorder_isTypeSupported B) as [f|]; [|discriminate].
    repeat match goal with
           | |- context [if ?b then _ else _] => destruct b
           end;
      intros H; inversion H; cbn; auto.
  - intros r Hr. apply supported_is_supported.
    revert Hr.
    run_handler B R p; intros H; in_cases H; inversion H; reflexivity.
  - intros parts type.
    run_handler B R p; intros H; in_cases H; inversion H; reflexivity.
  - intros b.
    run_handler B R p; intros H; in_cases H; inversion H; reflexivity.
Qed.

(** X3: when the recorder is started, it is started with a timeslice of
    100 ms and with the data-available handler already installed, after the
    state was set to recording and before the animation is started; the
    state is not set to recording again in that run. *)
Theorem recorder_is_started_ready
    (B : Browser) (inp : Inputs) (R : Run) (p : Page)
    (r : MediaRecorder) (ms : Z) :
  In (Eff_recorder_start r ms) (effects (handleRecord B inp R p)) ->
  ms = 100%Z /\ timeslice r = Some 100%Z /\
  has_ondataavailable r = true /\ rec_state r = rs_recording /\
  exists before after,
    effects (handleRecord B inp R p)
    = (before ++ Eff_recorder_start r ms :: after)%list /\
    In (Eff_setState (recording (clock p))) before /\
    ~ In (Eff_start (durationMs_of (durationSec inp))) before /\
    (forall s, In (Eff_setState s) after -> status s <> "recording").
Proof.
  run_handler B R p; intros H; in_cases H; inversion H; subst;
    (repeat split;
     [ eexists [_; _; _], _; repeat split;
       [ cbn; auto
       | intros Hin; in_cases Hin
       | intros s Hs; in_cases Hs; inversion Hs; subst; discriminate ] ]).
Qed.

(** The sample run starts its recorder with the handler installed. *)
Lemma recorder_is_started_ready_witness :
  100%Z = 100%Z /\ timeslice sample_started_recorder = Some 100%Z /\
  has_ondataavailable sample_started_recorder = true /\
  rec_state sample_started_recorder = rs_recording.
Proof.
  destruct (recorder_is_started_ready chrome sample_inputs sample_run
              (mount true) sample_started_recorder 100)
    as (Hms & Hslice & Hon & Hstate & _).
  - in_list.
  - repeat split; assumption.
Defined.

Section Sizes.

Lemma total_size_app l1 l2 :
  total_size (l1 ++ l2) = (total_size l1 + total_size l2)%N.
Proof. induction l1 as [|b l1 IH]; cbn; [reflexivity|]. rewrite IH. lia. Qed.

Lemma blob_size_new_Blob_of parts type :
  blob_size (new_Blob_of parts type) = total_size parts.
Proof.
  unfold blob_size, new_Blob_of. cbn [blob_bytes].
  induction parts as [|b parts IH]; cbn [map List.concat total_size];
    [reflexivity|].
  rewrite List.length_app, Nat2N.inj_add, IH. reflexivity.
Qed.

(** Leaving the empty chunks out loses no byte. *)
Lemma collected_size events :
  total_size (collected events) = delivered_size events.
Proof.
  induction events as [|e events IH]; [reflexivity|].
  change (collected (e :: events)) with (chunk_of e ++ collected events)%list.
  rewrite total_size_app, IH.
  destruct e as [now|[b|]]; cbn [chunk_of delivered_size total_size];
    try reflexivity.
  destruct (N.ltb_spec 0 (blob_size b)); cbn [total_size]; lia.
Qed.

End Sizes.

(** X4: in the done state the size is the total size of the data the
    recorder delivered during the wait (leaving the empty chunks out loses
    no byte), and the URL is the one made for the blob whose bytes are the
    delivered non-empty chunks, one after the other. *)
Theorem done_size_is_delivered_size
    (B : Browser) (inp : Inputs) (R : Run) (p : Page)
    (url : string) (size : N) (fileName : string) (d : number) :
  state (page (handleRecord B inp R p)) = done url size fileName d ->
  size = delivered_size (during R) /\
  exists blob,
    In (Eff_createObjectURL blob) (effects (handleRecord B inp R p)) /\
    url = createObjectURL R blob /\
    blob_bytes blob = List.concat (map blob_bytes (collected (during R))) /\
    blob_size blob = size.
Proof.
  run_handler B R p; intros H; try discriminate H.
  inversion H; subst; clear H.
  match goal with
  | |- context [fold_left dispatch (during R) ?X] => set (recording_page := X)
  end.
  assert (Hchunks : chunksRef (fold_left dispatch (during R) recording_page)
                    = collected (during R)).
  { rewrite fold_dispatch_chunksRef.
    subst recording_page. page_simpl. reflexivity. }
  page_simpl. rewrite Hchunks.
  split.
  - rewrite blob_size_new_Blob_of. apply collected_size.
  - exists (new_Blob_of (collected (during R)) mime).
    split; [cbn; repeat (first [left; reflexivity | right])|].
    repeat split.
Qed.

(** The sample run: two chunks of two bytes, an empty one and an absent
    one give a file of four bytes. *)
Lemma done_size_is_delivered_size_witness :
  4%N = delivered_size (during sample_run).
Proof.
  destruct (done_size_is_delivered_size chrome sample_inputs sample_run
              (mount true) _ 4%N _ _ eq_refl)
    as [Hsize _].
  exact Hsize.
Defined.


Section PendingCallback.

Variable B : Browser.

Lemma handleRecord_sched_ok inp R p :
  sched_ok p -> sched_ok (page (handleRecord B inp R p)).
Proof.
  intros Hp.
  run_handler B R p; try exact Hp.
  all: try (unfold sched_ok; cbn; exact Hp).
  all: try (unfold sched_ok; cbn; rewrite cancel_if_rafRef_clears; [exact I|]).
  all: try (unfold sched_ok; cbn).
  all: match goal with
       | |- context [fold_left dispatch ?evs ?X] =>
           change (sched_ok (fold_left dispatch evs X))
       end.
  all: apply fold_dispatch_sched_ok.
  all: unfold sched_ok; cbn; split; [reflexivity|discriminate].
Qed.

Lemma reset_sched_ok R p : sched_ok p -> sched_ok (page (reset R p)).
Proof.
  intros Hp. unfold_ops. cbn.
  destruct (mediaRecorderRef p); cbn; [case_throws R|]; exact Hp.
Qed.

Lemma perform_sched_ok a p : sched_ok p -> sched_ok (page (perform B a p)).
Proof.
  intros Hp. destruct a as [inp R|R|e]; unfold perform.
  - destruct (disabled (state p)); [exact Hp|].
    now apply handleRecord_sched_ok.
  - destruct (_ || _); [exact Hp|]. now apply reset_sched_ok.
  - now apply dispatch_sched_ok.
Qed.

Lemma session_sched_ok acts : forall p,
  sched_ok p -> sched_ok (fst (session B acts p)).
Proof.
  induction acts as [|a acts IH]; intros p Hp; cbn; [exact Hp|].
  specialize (IH _ (perform_sched_ok a p Hp)).
  destruct (session B acts (page (perform B a p))) as [p' l]. exact IH.
Qed.

End PendingCallback.

(** X6: whatever the user and the browser did with a mounted page, a
    pending animation callback is the one [rafRef] names, with a handle
    other than 0; so the cleanup run when the page is unmounted, and [stop],
    leave no callback pending. *)
Theorem pending_callback_is_always_cancellable
    (B : Browser) (canvas_can_capture : bool) (acts : list Action) :
  (forall h d,
     raf_scheduled (fst (session B acts (mount canvas_can_capture)))
     = Some (h, d) ->
     rafRef (fst (session B acts (mount canvas_can_capture))) = Some h /\
     h <> 0%nat) /\
  raf_scheduled
    (unmount_cleanup (fst (session B acts (mount canvas_can_capture))))
  = None /\
  raf_scheduled
    (page (stop (fst (session B acts (mount canvas_can_capture)))))
  = None.
Proof.
  assert (Hok : sched_ok (fst (session B acts (mount canvas_can_capture)))).
  { apply session_sched_ok. exact I. }
  split; [|split].
  - intros h d Hs. unfold sched_ok in Hok. rewrite Hs in Hok. exact Hok.
  - now apply cancel_if_rafRef_clears.
  - unfold_ops. cbn. now apply cancel_if_rafRef_clears.
Qed.

(** X7: [reset] sets the state to idle, empties the chunk buffer and so
    removes the download link; it leaves the canvas and the animation loop
    alone; it has no [try]/[catch], and raises exactly when there is a
    recorder whose [stop] raises, the state being idle and the buffer empty
    all the same; when it does not raise, the recorder, if any, is
    inactive. *)
Theorem reset_returns_to_idle (R : Run) (p : Page) :
  state (page (reset R p)) = idle /\
  chunksRef (page (reset R p)) = [] /\
  download_link (state (page (reset R p))) = None /\
  raf_scheduled (page (reset R p)) = raf_scheduled p /\
  rafRef (page (reset R p)) = rafRef p /\
  canvasRef (page (reset R p)) = canvasRef p /\
  (forall err,
     completion (reset R p) = Throw err
     <-> mediaRecorderRef p <> None /\ throws R call_recorder_stop = Some err) /\
  (completion (reset R p) = Normal tt ->
   option_map rec_state (mediaRecorderRef (page (reset R p)))
   = option_map (fun _ => rs_inactive) (mediaRecorderRef p)).
Proof.
  unfold_ops. cbn.
  destruct (mediaRecorderRef p) as [r|] eqn:Hr; cbn.
  - destruct (throws R call_recorder_stop) as [e|] eqn:He; cbn;
      repeat split; try reflexivity; try discriminate;
      try (intros H; inversion H; reflexivity);
      try (intros [_ H]; congruence);
      try congruence;
      try (intros _; rewrite Hr; reflexivity).
  - repeat split; try reflexivity; try discriminate.
    + intros [H _]. congruence.
    + intros _. rewrite Hr. reflexivity.
Qed.

Section FileName.

Lemma includes_app c a b :
  includes c (a ++ b) = includes c a || includes c b.
Proof.
  induction a as [|c' a IH]; cbn; [reflexivity|].
  now rewrite IH, orb_assoc.
Qed.

Lemma replaceAll_length pat rep s :
  String.length (replaceAll pat rep s) = String.length s.
Proof. induction s as [|c s IH]; cbn; [reflexivity|now rewrite IH]. Qed.

Lemma replaceAll_removes pat rep s :
  pat <> rep -> includes pat (replaceAll pat rep s) = false.
Proof.
  intros Hne. induction s as [|c s IH]; cbn; [reflexivity|].
  rewrite IH, orb_false_r.
  destruct (Ascii.eqb_spec c pat) as [->|Hc].
  - apply Ascii.eqb_neq. congruence.
  - now apply Ascii.eqb_neq.
Qed.

Lemma replaceAll_keeps_out c pat rep s :
  c <> rep -> includes c s = false ->
  includes c (replaceAll pat rep s) = false.
Proof.
  intros Hne. induction s as [|c' s IH]; cbn; [reflexivity|].
  intros H. apply orb_false_iff in H as [Hc' Hs].
  rewrite (IH Hs), orb_false_r.
  destruct (Ascii.eqb c' pat); [|exact Hc'].
  apply Ascii.eqb_neq. congruence.
Qed.

End FileName.

(** X8: whatever the ISO string of the date, the file name holds no
    colon, holds no dot but the one of its [.webm] extension, and is 18
    characters longer than the ISO string. *)
Theorem fileName_has_no_colon_and_one_dot (iso : string) :
  includes ":" (fileName_of iso) = false /\
  (exists stem,
     fileName_of iso = stem ++ ".webm" /\ includes "." stem = false) /\
  String.length (fileName_of iso) = (String.length iso + 18)%nat.
Proof.
  unfold fileName_of. split; [|split].
  - rewrite !includes_app.
    rewrite replaceAll_keeps_out;
      [reflexivity | discriminate | apply replaceAll_removes; discriminate].
  - exists ("youtube-720p-" ++ replaceAll "." "-" (replaceAll ":" "-" iso)).
    split.
    + generalize (replaceAll "." "-" (replaceAll ":" "-" iso)).
      intros s. reflexivity.
    + rewrite includes_app, replaceAll_removes by discriminate. reflexivity.
  - rewrite !length_app, !replaceAll_length. cbn. lia.
Qed.

(** X9: a whole number of seconds, one at least, whose milliseconds a
    double holds exactly (below 2^53), is recorded for exactly that many
    thousand milliseconds; a duration of one second or less (the 0 of a
    cleared field, a negative number) is recorded for 1000 ms. *)
Theorem duration_of_whole_and_short_seconds :
  (forall n : Z, (1 <= n)%Z -> (n * 1000 < 2 ^ 53)%Z ->
     durationMs_of (num n) = num (n * 1000)) /\
  (forall q : Q, (q <= 1)%Q -> durationMs_of (Fin q) = num 1000) /\
  durationMs_of NegInf = num 1000.
Proof.
  split; [exact durationMs_of_whole_seconds|].
  split; [exact durationMs_of_short|reflexivity].
Qed.

Section SizeLabel.

Lemma hundredths_of_bytes (b : N) :
  toFixed2_hundredths (inject_Z (Z.of_N b) / (1024 * 1024))
  = ((200 * b + 1048576) / 2097152)%N.
Proof.
  set (n := ((200 * b + 1048576) / 2097152)%N).
  unfold toFixed2_hundredths, Qfloor, Qdiv, Qmult, Qplus, Qinv, inject_Z.
  cbn.
  replace ((Z.of_N b * 1 * 100 * 2 + 1048576) / 2097152)%Z with (Z.of_N n).
  - apply N2Z.id.
  - subst n. rewrite N2Z.inj_div, N2Z.inj_add, N2Z.inj_mul.
    f_equal. change (Z.of_N 200) with 200%Z.
    change (Z.of_N 1048576) with 1048576%Z. lia.
Qed.

Lemma toFixed2_of_bytes (b : N) :
  (b <= 2 ^ 53)%N ->
  toFixed2 (inject_Z (Z.of_N b) / (1024 * 1024))
  = Some (decimal ((200 * b + 1048576) / 2097152 / 100) ++ "."
          ++ two_digits (((200 * b + 1048576) / 2097152) mod 100)).
Proof.
  intros Hb. unfold toFixed2. rewrite hundredths_of_bytes.
  destruct (Qle_bool _ _) eqn:Hbig; [|reflexivity].
  exfalso. apply Qle_bool_iff in Hbig.
  unfold Qle, Qdiv, Qmult, Qinv, inject_Z in Hbig. cbn in Hbig.
  assert (Hz : (Z.of_N b <= 2 ^ 53)%Z).
  { change (2 ^ 53)%Z with (Z.of_N (2 ^ 53)). now apply N2Z.inj_le. }
  lia.
Qed.

End SizeLabel.

(** X10: for a size of up to 2^53 bytes, the size label shows the size in
    units of 1024 * 1024 bytes, rounded to the nearest hundredth, the upper
    one of two: the hundredths [n] shown satisfy
    [n - 1/2 <= 100 b / 2^20 < n + 1/2]; a size up to 5242 bytes is shown as
    0.00, and a whole number [k] of such units as [k] followed by [.00]. *)
Theorem bytesToMb_rounds_to_hundredths (b : N) :
  (b <= 2 ^ 53)%N ->
  (exists n,
     bytesToMb b
     = Some (decimal (n / 100) ++ "." ++ two_digits (n mod 100)) /\
     (2097152 * n <= 200 * b + 1048576 < 2097152 * (n + 1))%N) /\
  ((b <= 5242)%N -> bytesToMb b = Some "0.00") /\
  (forall k, b = (k * 1048576)%N -> bytesToMb b = Some (decimal k ++ ".00")).
Proof.
  intros Hb. unfold bytesToMb.
  rewrite (proj2 (N.leb_le b (2 ^ 53)) Hb).
  rewrite (toFixed2_of_bytes b Hb).
  split; [|split].
  - exists ((200 * b + 1048576) / 2097152)%N. split; [reflexivity|].
    split.
    + apply N.Div0.mul_div_le.
    + rewrite N.add_1_r. apply N.mul_succ_div_gt. discriminate.
  - intros Hsmall.
    rewrite (N.div_small (200 * b + 1048576) 2097152) by lia. reflexivity.
  - intros k Hk. subst b.
    replace ((200 * (k * 1048576) + 1048576) / 2097152)%N with (100 * k)%N.
    + rewrite N.mul_comm, N.div_mul, N.Div0.mod_mul by discriminate.
      reflexivity.
    + apply N.div_unique with (r := 1048576%N); lia.
Qed.

(** Three units of 1024 * 1024 bytes are shown as 3.00. *)
Lemma bytesToMb_rounds_to_hundredths_witness :
  bytesToMb 3145728 = Some "3.00".
Proof.
  destruct (bytesToMb_rounds_to_hundredths 3145728) as (_ & _ & Hwhole).
  - discriminate.
  - exact (Hwhole 3%N eq_refl).
Defined.

Section ProgressBar.

Lemma barWidth_720 : (barWidth == 720)%Q.
Proof. reflexivity. Qed.

(** The share of the track that is filled lies between 0 and 1. *)
Lemma progress_share (progress : number) :
  progress <> NaN ->
  exists s, Math_max (num 0) (Math_min (num 1) progress) = Fin s
            /\ (0 <= s <= 1)%Q.
Proof.
  intros Hp. destruct progress as [| | |q]; cbn.
  - congruence.
  - exists 0%Q. split; [reflexivity|]. split; discriminate.
  - exists 1%Q. split; [reflexivity|]. split; discriminate.
  - destruct (Qle_bool (inject_Z 1) q) eqn:H1; cbn.
    + exists 1%Q. split; [reflexivity|]. split; discriminate.
    + destruct (Qle_bool (inject_Z 0) q) eqn:H0.
      * exists q. split; [reflexivity|]. split.
        -- now apply Qle_bool_iff in H0.
        -- apply Qnot_lt_le. intros Hlt.
           assert (Hle : (inject_Z 1 <= q)%Q) by now apply Qlt_le_weak.
           apply Qle_bool_iff in Hle. congruence.
      * exists 0%Q. split; [reflexivity|]. split; discriminate.
Qed.

End ProgressBar.

(** X11: for every progress value that is a number, the filled part of the
    progress bar that [drawFrame] paints starts where the track starts, at
    (280, 660), is between 0 and the 720 of the track wide, and stays within
    the 1280 by 720 of the canvas. *)
Theorem progress_fill_stays_in_track (progress : number) :
  progress <> NaN ->
  exists w,
    rect_w (progress_fill progress) = Fin w /\
    (0 <= w <= 720)%Q /\
    (rect_x (progress_fill progress) == 280)%Q /\
    (rect_y (progress_fill progress) == 660)%Q /\
    (rect_x (progress_fill progress) + w <= inject_Z WIDTH)%Q /\
    (rect_y (progress_fill progress) + rect_h (progress_fill progress)
     <= inject_Z HEIGHT)%Q /\
    rect_w progress_track = Fin barWidth /\ (barWidth == 720)%Q.
Proof.
  intros Hp. destruct (progress_share progress Hp) as (s & Hs & Hs0 & Hs1).
  unfold progress_fill. rewrite Hs. cbn [rect_w rect_x rect_y rect_h num_mul].
  change barWidth with 720%Q. change barX with (560 # 2)%Q.
  change barY with 660%Q. change (inject_Z WIDTH) with 1280%Q.
  change (inject_Z HEIGHT) with 720%Q.
  assert (Hup : (720 * s <= inject_Z 720)%Q)
    by (change (inject_Z 720) with 720%Q; lra).
  assert (Hlo : (0 <= 720 * s)%Q) by lra.
  pose proof (round64_upper _ 720 ltac:(lia) Hup) as Hmax.
  pose proof (round64_nonneg _ Hlo) as Hmin.
  destruct (round64 (720 * s)) as [| | |w]; try contradiction.
  change (inject_Z 720) with 720%Q in Hmax.
  exists w.
  split; [reflexivity|].
  split; [split; assumption|].
  split; [reflexivity|]. split; [reflexivity|].
  split; [lra|]. split; [discriminate|]. split; reflexivity.
Qed.

(** Half way: 360 of the 720 are filled. *)
Lemma progress_fill_stays_in_track_witness :
  exists w,
    rect_w (progress_fill (Fin (1 # 2))) = Fin w /\ (0 <= w <= 720)%Q.
Proof.
  destruct (progress_fill_stays_in_track (Fin (1 # 2)))
    as (w & Hw & Hbounds & _).
  - discriminate.
  - exists w. split; assumption.
Defined.
